(** * Promotor: request routing and orchestration graph

    A shallow embedding of [backend/graph/state.py], [backend/graph/routing.py]
    and [backend/graph/main_graph.py] (with the aggregation method of
    [backend/agents/chief_coordinator.py]), and the properties of the
    classifier, the division router, the model-tier policy and the
    orchestration graph.

    Python values are modelled as follows.
    - [str] is a list of Unicode code points ([pystr]); [len] is [length],
      [a in s] is [is_infix a s].
    - [dict] is an association list in insertion order ([dict_set] overwrites
      in place or appends, as Python does).
    - The builtins whose full Unicode tables are not part of the repository
      ([str.lower], [str.title], the caseless character comparison of
      [re.IGNORECASE], [hash], [str] of a dict) are the methods of the class
      [PyRuntime]; [ascii_runtime] implements them for ASCII text. *)

From Stdlib Require Import List NArith ZArith Bool Arith Lia String Ascii.
Import ListNotations.

Set Implicit Arguments.
#[local] Open Scope string_scope.
#[local] Open Scope list_scope.
#[local] Open Scope nat_scope.

(* ===================================================================== *)
(** ** Python strings *)
(* ===================================================================== *)

Definition pystr := list N.

Module Utf8.

(** Decoder for the UTF-8 bytes of a literal of this file; [need] counts
    the continuation bytes still expected for the code point in [acc]. *)
Fixpoint decode (acc : N) (need : nat) (bs : list N) : pystr :=
  match bs with
  | [] => []
  | b :: rest =>
      match need with
      | S k =>
          let acc' := (acc * 64 + b mod 64)%N in
          match k with
          | O => acc' :: decode 0%N 0 rest
          | S _ => decode acc' k rest
          end
      | O =>
          if (b <? 128)%N then b :: decode 0%N 0 rest
          else if (b <? 224)%N then decode (b mod 32)%N 1 rest
          else if (b <? 240)%N then decode (b mod 16)%N 2 rest
          else decode (b mod 8)%N 3 rest
      end
  end.

Definition of_string (s : string) : pystr :=
  decode 0%N 0 (map N_of_ascii (list_ascii_of_string s)).

End Utf8.

Definition u (s : string) : pystr := Utf8.of_string s.

Fixpoint str_eqb (a b : pystr) : bool :=
  match a, b with
  | [], [] => true
  | x :: a', y :: b' => (x =? y)%N && str_eqb a' b'
  | _, _ => false
  end.

(** [s.startswith(a)] *)
Fixpoint is_prefix (a s : pystr) : bool :=
  match a, s with
  | [], _ => true
  | x :: a', y :: s' => (x =? y)%N && is_prefix a' s'
  | _ :: _, [] => false
  end.

(** [a in s] for strings: [a] occurs in [s] at some offset. *)
Fixpoint is_infix (a s : pystr) : bool :=
  is_prefix a s ||
  match s with
  | [] => false
  | _ :: s' => is_infix a s'
  end.

(** [s.replace(old, new)] for one-character [old] and [new]. *)
Definition replace_char (old new : N) (s : pystr) : pystr :=
  map (fun c => if (c =? old)%N then new else c) s.

(** [sep.join(parts)] *)
Fixpoint join (sep : pystr) (parts : list pystr) : pystr :=
  match parts with
  | [] => []
  | [p] => p
  | p :: rest => p ++ sep ++ join sep rest
  end.

(** Characters that [str.lower] leaves alone whatever the Unicode tables
    say: ASCII other than [A-Z], and the (caseless) Hangul syllables. *)
Definition caseless_or_lower (c : N) : bool :=
  ((c <? 65) || ((90 <? c) && (c <? 128)) ||
   ((44032 <=? c) && (c <=? 55203)))%N.

(* ===================================================================== *)
(** ** Dictionaries in insertion order *)
(* ===================================================================== *)

Class Eqb (K : Type) := {
  eqb : K -> K -> bool;
  eqb_eq : forall a b, eqb a b = true <-> a = b
}.

Lemma str_eqb_eq (a b : pystr) : str_eqb a b = true <-> a = b.
Proof.
  revert b; induction a as [|x a IH]; intros [|y b]; simpl;
    try (split; [discriminate | congruence]); try tauto.
  rewrite andb_true_iff, N.eqb_eq, IH. split.
  - intros [-> ->]; reflexivity.
  - intros E; injection E; auto.
Qed.

#[export] Instance pystr_Eqb : Eqb pystr :=
  {| eqb := str_eqb; eqb_eq := str_eqb_eq |}.

Section Dict.
Context {K V : Type} `{Eqb K}.

Definition dict := list (K * V).

Definition dict_keys (d : dict) : list K := map fst d.

(** [d.get(k)] *)
Fixpoint dict_get (d : dict) (k : K) : option V :=
  match d with
  | [] => None
  | (k', v) :: d' => if eqb k' k then Some v else dict_get d' k
  end.

(** [d[k] = v]: an existing key keeps its position, a new key goes last. *)
Fixpoint dict_set (d : dict) (k : K) (v : V) : dict :=
  match d with
  | [] => [(k, v)]
  | (k', v') :: d' =>
      if eqb k' k then (k', v) :: d' else (k', v') :: dict_set d' k v
  end.

(** [k in d] *)
Definition dict_mem (d : dict) (k : K) : bool :=
  match dict_get d k with Some _ => true | None => false end.

(** A Python dict holds each key once. *)
Definition dict_wf (d : dict) : Prop := NoDup (dict_keys d).

Lemma eqb_refl (k : K) : eqb k k = true.
Proof. apply eqb_eq; reflexivity. Qed.

Lemma eqb_neq (a b : K) : eqb a b = false <-> a <> b.
Proof.
  destruct (eqb a b) eqn:E.
  - apply eqb_eq in E. split; [discriminate | contradiction].
  - split; [|reflexivity]. intros _ Hab. apply eqb_eq in Hab. congruence.
Qed.

Lemma dict_get_None (d : dict) (k : K) :
  dict_get d k = None <-> ~ In k (dict_keys d).
Proof.
  induction d as [|[k' v] d IH]; simpl.
  - tauto.
  - destruct (eqb k' k) eqn:E.
    + apply eqb_eq in E. split; [discriminate | intros Hn; exfalso; auto].
    + apply eqb_neq in E. rewrite IH. tauto.
Qed.

Lemma dict_get_In (d : dict) (k : K) (v : V) :
  dict_wf d -> In (k, v) d -> dict_get d k = Some v.
Proof.
  unfold dict_wf. induction d as [|[k' v'] d IH]; simpl; intros Hnd Hin.
  - contradiction.
  - inversion Hnd as [|? ? Hni Hnd']; subst.
    destruct Hin as [E | Hin].
    + injection E as -> ->. now rewrite eqb_refl.
    + destruct (eqb k' k) eqn:E.
      * apply eqb_eq in E; subst. exfalso. apply Hni.
        change k with (fst (k, v)). now apply in_map.
      * auto.
Qed.

Lemma dict_set_fresh (d : dict) (k : K) (v : V) :
  ~ In k (dict_keys d) -> dict_set d k v = d ++ [(k, v)].
Proof.
  induction d as [|[k' v'] d IH]; simpl; intros Hn.
  - reflexivity.
  - destruct (eqb k' k) eqn:E.
    + apply eqb_eq in E. exfalso; auto.
    + rewrite IH by tauto. reflexivity.
Qed.

Lemma dict_set_keys_present (d : dict) (k : K) (v : V) :
  In k (dict_keys d) -> dict_keys (dict_set d k v) = dict_keys d.
Proof.
  induction d as [|[k' v'] d IH]; simpl; intros Hin.
  - contradiction.
  - destruct (eqb k' k) eqn:E; simpl.
    + reflexivity.
    + apply eqb_neq in E. f_equal. apply IH. tauto.
Qed.

Lemma dict_get_set_same (d : dict) (k : K) (v : V) :
  dict_get (dict_set d k v) k = Some v.
Proof.
  induction d as [|[k' v'] d IH]; simpl.
  - now rewrite eqb_refl.
  - destruct (eqb k' k) eqn:E; simpl; rewrite E; auto.
Qed.

End Dict.

Arguments dict K V : clear implicits.

(* ===================================================================== *)
(** ** Python builtins taken as an interface *)
(* ===================================================================== *)

(** A value stored under a key of a division result: a string, or any other
    object, known by its [str()] text and its truth value. *)
Inductive PyVal :=
| VStr (s : pystr)
| VOther (text : pystr) (truthy : bool).

Class PyRuntime := {
  (** [str.lower] *)
  str_lower : pystr -> pystr;
  (** [str.title] *)
  str_title : pystr -> pystr;
  (** [re.IGNORECASE]: does pattern character [p] match subject character
      [c]? *)
  re_ichar : N -> N -> bool;
  (** [str(hash(s))] *)
  hash_text : pystr -> pystr;
  (** [str(d)] for a dict *)
  dict_text : dict pystr PyVal -> pystr;
  (** [str.lower] changes cased characters only. *)
  str_lower_caseless :
    forall s, forallb caseless_or_lower s = true -> str_lower s = s
}.

(** The builtins restricted to ASCII letters. *)
Module AsciiRuntime.

Definition is_upper (c : N) : bool := ((65 <=? c) && (c <=? 90))%N.
Definition is_lower (c : N) : bool := ((97 <=? c) && (c <=? 122))%N.
Definition lower_char (c : N) : N := if is_upper c then (c + 32)%N else c.
Definition upper_char (c : N) : N := if is_lower c then (c - 32)%N else c.

Definition lower (s : pystr) : pystr := map lower_char s.

(** [str.title]: a cased character is upper-cased after an uncased one
    and lower-cased after a cased one. *)
Fixpoint title_from (prev_cased : bool) (s : pystr) : pystr :=
  match s with
  | [] => []
  | c :: s' =>
      if is_upper c || is_lower c
      then (if prev_cased then lower_char c else upper_char c)
             :: title_from true s'
      else c :: title_from false s'
  end.

Definition title (s : pystr) : pystr := title_from false s.

Definition ichar (p c : N) : bool := (lower_char p =? lower_char c)%N.

Lemma lower_caseless (s : pystr) :
  forallb caseless_or_lower s = true -> lower s = s.
Proof.
  induction s as [|c s IH]; simpl; intros Hs.
  - reflexivity.
  - apply andb_true_iff in Hs as [Hc Hs]. rewrite (IH Hs). f_equal.
    unfold lower_char, is_upper. unfold caseless_or_lower in Hc.
    destruct (65 <=? c)%N eqn:E1; destruct (c <=? 90)%N eqn:E2;
      simpl; try reflexivity.
    apply N.leb_le in E1, E2.
    apply orb_true_iff in Hc as [Hc | Hc];
      [apply orb_true_iff in Hc as [Hc | Hc] |].
    + apply N.ltb_lt in Hc. lia.
    + apply andb_true_iff in Hc as [Hc _]. apply N.ltb_lt in Hc. lia.
    + apply andb_true_iff in Hc as [Hc _]. apply N.leb_le in Hc. lia.
Qed.

End AsciiRuntime.

Definition ascii_runtime : PyRuntime :=
  {| str_lower := AsciiRuntime.lower;
     str_title := AsciiRuntime.title;
     re_ichar := AsciiRuntime.ichar;
     hash_text := fun _ => u "0";
     dict_text := fun _ => u "{...}";
     str_lower_caseless := AsciiRuntime.lower_caseless |}.

(* ===================================================================== *)
(** ** state.py: the enumerations *)
(* ===================================================================== *)

Inductive Division :=
| STRATEGIC_PLANNING
| MARKET_INTELLIGENCE
| CHANNEL_MANAGEMENT
| ANALYTICS
| OPERATIONS.

Inductive TaskType :=
| PROMOTION_PLANNING | TIMELINE_MANAGEMENT | BUDGET_ALLOCATION
| NEWS_SCOUTING | COMPETITOR_ANALYSIS | INGREDIENT_TRENDS | SEASONAL_ANALYSIS
| CHANNEL_STATUS | PRICE_SYNC | INVENTORY_CHECK | CROSS_CHANNEL
| SENTIMENT_ANALYSIS | PROMOTION_REVIEW | BUNDLE_ANALYSIS
| MARGIN_CALCULATION | STOCKOUT_PREDICTION | INFLUENCER_ROI | ATTRIBUTION
| INVENTORY_MONITORING | PRICE_MONITORING | CHECKLIST_VALIDATION
| GENERAL_QUERY | MULTI_DIVISION.

(** [Division.value] *)
Definition division_value (d : Division) : pystr :=
  match d with
  | STRATEGIC_PLANNING => u "strategic_planning"
  | MARKET_INTELLIGENCE => u "market_intelligence"
  | CHANNEL_MANAGEMENT => u "channel_management"
  | ANALYTICS => u "analytics"
  | OPERATIONS => u "operations"
  end.

(** [for division in Division] *)
Definition all_divisions : list Division :=
  [STRATEGIC_PLANNING; MARKET_INTELLIGENCE; CHANNEL_MANAGEMENT; ANALYTICS;
   OPERATIONS].

(** [TaskType.value] *)
Definition task_value (t : TaskType) : pystr :=
  match t with
  | PROMOTION_PLANNING => u "promotion_planning"
  | TIMELINE_MANAGEMENT => u "timeline_management"
  | BUDGET_ALLOCATION => u "budget_allocation"
  | NEWS_SCOUTING => u "news_scouting"
  | COMPETITOR_ANALYSIS => u "competitor_analysis"
  | INGREDIENT_TRENDS => u "ingredient_trends"
  | SEASONAL_ANALYSIS => u "seasonal_analysis"
  | CHANNEL_STATUS => u "channel_status"
  | PRICE_SYNC => u "price_sync"
  | INVENTORY_CHECK => u "inventory_check"
  | CROSS_CHANNEL => u "cross_channel"
  | SENTIMENT_ANALYSIS => u "sentiment_analysis"
  | PROMOTION_REVIEW => u "promotion_review"
  | BUNDLE_ANALYSIS => u "bundle_analysis"
  | MARGIN_CALCULATION => u "margin_calculation"
  | STOCKOUT_PREDICTION => u "stockout_prediction"
  | INFLUENCER_ROI => u "influencer_roi"
  | ATTRIBUTION => u "attribution"
  | INVENTORY_MONITORING => u "inventory_monitoring"
  | PRICE_MONITORING => u "price_monitoring"
  | CHECKLIST_VALIDATION => u "checklist_validation"
  | GENERAL_QUERY => u "general_query"
  | MULTI_DIVISION => u "multi_division"
  end.

Definition Division_eqb (a b : Division) : bool :=
  match a, b with
  | STRATEGIC_PLANNING, STRATEGIC_PLANNING
  | MARKET_INTELLIGENCE, MARKET_INTELLIGENCE
  | CHANNEL_MANAGEMENT, CHANNEL_MANAGEMENT
  | ANALYTICS, ANALYTICS
  | OPERATIONS, OPERATIONS => true
  | _, _ => false
  end.

Lemma Division_eqb_eq (a b : Division) : Division_eqb a b = true <-> a = b.
Proof. destruct a, b; simpl; split; congruence. Qed.

#[export] Instance Division_Eqb : Eqb Division :=
  {| eqb := Division_eqb; eqb_eq := Division_eqb_eq |}.

(** Enum members are compared by identity; the declaration index decides. *)
Definition task_index (t : TaskType) : nat :=
  match t with
  | PROMOTION_PLANNING => 0 | TIMELINE_MANAGEMENT => 1 | BUDGET_ALLOCATION => 2
  | NEWS_SCOUTING => 3 | COMPETITOR_ANALYSIS => 4 | INGREDIENT_TRENDS => 5
  | SEASONAL_ANALYSIS => 6 | CHANNEL_STATUS => 7 | PRICE_SYNC => 8
  | INVENTORY_CHECK => 9 | CROSS_CHANNEL => 10 | SENTIMENT_ANALYSIS => 11
  | PROMOTION_REVIEW => 12 | BUNDLE_ANALYSIS => 13 | MARGIN_CALCULATION => 14
  | STOCKOUT_PREDICTION => 15 | INFLUENCER_ROI => 16 | ATTRIBUTION => 17
  | INVENTORY_MONITORING => 18 | PRICE_MONITORING => 19
  | CHECKLIST_VALIDATION => 20 | GENERAL_QUERY => 21 | MULTI_DIVISION => 22
  end.

Definition TaskType_eqb (a b : TaskType) : bool :=
  Nat.eqb (task_index a) (task_index b).

Lemma TaskType_eqb_eq (a b : TaskType) : TaskType_eqb a b = true <-> a = b.
Proof.
  unfold TaskType_eqb. rewrite Nat.eqb_eq. split; [|congruence].
  destruct a, b; simpl; intros E; try reflexivity; discriminate E.
Qed.

#[export] Instance TaskType_Eqb : Eqb TaskType :=
  {| eqb := TaskType_eqb; eqb_eq := TaskType_eqb_eq |}.

(* ===================================================================== *)
(** ** routing.py: the tables *)
(* ===================================================================== *)

(** [TASK_KEYWORDS], in declaration order. *)
Definition TASK_KEYWORDS : dict TaskType (list pystr) :=
  [ (PROMOTION_PLANNING,
      map u ["plan"; "planning"; "calendar"; "schedule"; "campaign"; "q1";
             "q2"; "q3"; "q4"; "quarterly"; "monthly"; "weekly"; "annual";
             "프로모션"; "계획"; "캠페인"]);
    (TIMELINE_MANAGEMENT,
      map u ["timeline"; "deadline"; "milestone"; "due"; "when"; "reminder";
             "일정"; "마감"]);
    (BUDGET_ALLOCATION,
      map u ["budget"; "cost"; "spend"; "allocate"; "roi"; "예산"; "비용";
             "배분"]);
    (NEWS_SCOUTING,
      map u ["news"; "trend"; "industry"; "뉴스"; "트렌드"; "업계"]);
    (COMPETITOR_ANALYSIS,
      map u ["competitor"; "competition"; "innisfree"; "laneige"; "etude";
             "경쟁사"; "경쟁"]);
    (INGREDIENT_TRENDS,
      map u ["ingredient"; "centella"; "retinol"; "niacinamide"; "vitamin";
             "성분"; "레티놀"]);
    (SEASONAL_ANALYSIS,
      map u ["seasonal"; "season"; "summer"; "winter"; "holiday"; "계절";
             "여름"; "겨울"]);
    (CHANNEL_STATUS,
      map u ["oliveyoung"; "coupang"; "naver"; "kakao"; "channel"; "올리브영";
             "쿠팡"; "네이버"]);
    (PRICE_SYNC,
      map u ["price sync"; "price consistency"; "가격 동기화"; "가격 일치"]);
    (SENTIMENT_ANALYSIS,
      map u ["review"; "sentiment"; "feedback"; "customer opinion"; "리뷰";
             "평점"; "고객 의견"]);
    (PROMOTION_REVIEW,
      map u ["performance"; "analyze promotion"; "how did"; "결과"; "성과";
             "분석"]);
    (BUNDLE_ANALYSIS,
      map u ["bundle"; "cross-sell"; "upsell"; "세트"; "번들"; "교차판매"]);
    (MARGIN_CALCULATION,
      map u ["margin"; "profit"; "discount level"; "마진"; "수익"; "할인율"]);
    (STOCKOUT_PREDICTION,
      map u ["stockout"; "stock out"; "reorder"; "inventory forecast";
             "재고 부족"; "발주"]);
    (INFLUENCER_ROI,
      map u ["influencer"; "kol"; "creator"; "인플루언서"; "크리에이터"]);
    (ATTRIBUTION,
      map u ["attribution"; "channel contribution"; "기여도"; "채널 기여"]);
    (INVENTORY_MONITORING,
      map u ["inventory"; "stock level"; "재고"; "재고 현황"]);
    (PRICE_MONITORING,
      map u ["price monitor"; "map violation"; "reseller"; "가격 모니터링";
             "리셀러"]);
    (CHECKLIST_VALIDATION,
      map u ["checklist"; "validation"; "pre-launch"; "체크리스트"; "검증"]) ].

(** [TASK_TO_DIVISION] *)
Definition TASK_TO_DIVISION : dict TaskType Division :=
  [ (PROMOTION_PLANNING, STRATEGIC_PLANNING);
    (TIMELINE_MANAGEMENT, STRATEGIC_PLANNING);
    (BUDGET_ALLOCATION, STRATEGIC_PLANNING);
    (NEWS_SCOUTING, MARKET_INTELLIGENCE);
    (COMPETITOR_ANALYSIS, MARKET_INTELLIGENCE);
    (INGREDIENT_TRENDS, MARKET_INTELLIGENCE);
    (SEASONAL_ANALYSIS, MARKET_INTELLIGENCE);
    (CHANNEL_STATUS, CHANNEL_MANAGEMENT);
    (PRICE_SYNC, CHANNEL_MANAGEMENT);
    (INVENTORY_CHECK, CHANNEL_MANAGEMENT);
    (CROSS_CHANNEL, CHANNEL_MANAGEMENT);
    (SENTIMENT_ANALYSIS, ANALYTICS);
    (PROMOTION_REVIEW, ANALYTICS);
    (BUNDLE_ANALYSIS, ANALYTICS);
    (MARGIN_CALCULATION, ANALYTICS);
    (STOCKOUT_PREDICTION, ANALYTICS);
    (INFLUENCER_ROI, ANALYTICS);
    (ATTRIBUTION, ANALYTICS);
    (INVENTORY_MONITORING, OPERATIONS);
    (PRICE_MONITORING, OPERATIONS);
    (CHECKLIST_VALIDATION, OPERATIONS) ].

(** The regular expressions of [MULTI_DIVISION_PATTERNS] use literals, [.*]
    and [|] only. *)
Inductive regex :=
| RLit (s : pystr)
| RDotStar
| RCat (a b : regex)
| RAlt (a b : regex).

(** [a.*b] *)
Definition then_later (a b : string) : regex :=
  RCat (RLit (u a)) (RCat RDotStar (RLit (u b))).

Record PatternConfig := {
  pattern : regex;
  divisions : list Division;
  description : pystr
}.

(** [MULTI_DIVISION_PATTERNS], in declaration order. *)
Definition MULTI_DIVISION_PATTERNS : list PatternConfig :=
  [ {| pattern :=
         RAlt (then_later "plan" "promotion")
           (RAlt (then_later "promotion" "plan")
              (RAlt (then_later "캠페인" "계획") (then_later "계획" "캠페인")));
       divisions :=
         [STRATEGIC_PLANNING; MARKET_INTELLIGENCE; CHANNEL_MANAGEMENT;
          ANALYTICS];
       description := u "Full promotion planning workflow" |};
    {| pattern :=
         RAlt (then_later "launch" "check")
           (RAlt (then_later "pre" "launch")
              (RAlt (then_later "런칭" "체크") (then_later "사전" "검토")));
       divisions := [OPERATIONS; CHANNEL_MANAGEMENT];
       description := u "Pre-launch validation" |};
    {| pattern :=
         RAlt (then_later "analyze" "channel")
           (RAlt (then_later "channel" "performance")
              (RAlt (then_later "채널" "분석") (then_later "성과" "분석")));
       divisions := [CHANNEL_MANAGEMENT; ANALYTICS];
       description := u "Channel performance analysis" |} ].

(** The three tier names returned by [determine_model_tier]. *)
Definition tier1_free : pystr := u "tier1_free".
Definition tier2_cheap : pystr := u "tier2_cheap".
Definition tier3_full : pystr := u "tier3_full".

(** [x in xs] for a list or set of comparable values *)
Definition py_in {A : Type} `{Eqb A} (x : A) (xs : list A) : bool :=
  existsb (fun y => eqb y x) xs.

(* ===================================================================== *)
(** ** routing.py: the functions *)
(* ===================================================================== *)

Section Routing.
Context `{RT : PyRuntime}.

(** [sum(1 for kw in keywords if kw.lower() in query_lower)] *)
Definition keyword_score (query_lower : pystr) (keywords : list pystr) : nat :=
  List.length (filter (fun kw => is_infix (str_lower kw) query_lower) keywords).

(** The loop of [classify_task] that fills [scores]. *)
Definition task_scores (query_lower : pystr) : dict TaskType nat :=
  fold_left
    (fun scores item =>
       let score := keyword_score query_lower (snd item) in
       if 0 <? score then dict_set scores (fst item) score else scores)
    TASK_KEYWORDS [].

(** [max(scores, key=lambda x: scores[x])] on the keys [first :: rest]:
    a later key replaces the best one only with a strictly larger score. *)
Definition scores_at (scores : dict TaskType nat) (x : TaskType) : nat :=
  match dict_get scores x with Some n => n | None => 0 end.

Definition max_key (scores : dict TaskType nat) (first : TaskType)
    (rest : list TaskType) : TaskType :=
  fold_left
    (fun best x => if scores_at scores best <? scores_at scores x
                   then x else best)
    rest first.

Definition classify_task (query : pystr) : TaskType :=
  let query_lower := str_lower query in
  let scores := task_scores query_lower in
  match dict_keys scores with
  | [] => GENERAL_QUERY
  | first :: rest => max_key scores first rest
  end.

(** Literal of a pattern against a prefix of the subject, characters
    compared as [re.IGNORECASE] does; the rest of the subject on success. *)
Fixpoint re_lit (l s : pystr) : option pystr :=
  match l, s with
  | [], _ => Some s
  | p :: l', c :: s' => if re_ichar p c then re_lit l' s' else None
  | _ :: _, [] => None
  end.

(** [.*] followed by the continuation [k]; [.] does not match a newline. *)
Fixpoint re_dotstar (k : pystr -> bool) (s : pystr) : bool :=
  k s ||
  match s with
  | [] => false
  | c :: s' => if (c =? 10)%N then false else re_dotstar k s'
  end.

(** Does [r] match a prefix of [s] such that [k] accepts the rest? *)
Fixpoint re_match (r : regex) (s : pystr) (k : pystr -> bool) : bool :=
  match r with
  | RLit l => match re_lit l s with Some rest => k rest | None => false end
  | RDotStar => re_dotstar k s
  | RCat a b => re_match a s (fun rest => re_match b rest k)
  | RAlt a b => re_match a s k || re_match b s k
  end.

(** [re.search(r, s, re.IGNORECASE)] as a truth value *)
Fixpoint re_search (r : regex) (s : pystr) : bool :=
  re_match r s (fun _ => true) ||
  match s with
  | [] => false
  | _ :: s' => re_search r s'
  end.

Definition determine_divisions (query : pystr) (task_type : TaskType)
    : list Division :=
  let query_lower := str_lower query in
  match find (fun cfg => re_search (pattern cfg) query_lower)
             MULTI_DIVISION_PATTERNS with
  | Some pattern_config => divisions pattern_config
  | None =>
      match dict_get TASK_TO_DIVISION task_type with
      | Some d => [d]
      | None => []
      end
  end.

Definition determine_model_tier (task_type : TaskType) (query : pystr)
    : pystr :=
  if py_in task_type [INVENTORY_MONITORING; CHANNEL_STATUS] then tier1_free
  else if py_in task_type [PRICE_MONITORING; CHECKLIST_VALIDATION]
  then tier2_cheap
  else if (List.length query <? 50)
          && negb (py_in task_type [PROMOTION_PLANNING; MULTI_DIVISION])
  then tier2_cheap
  else tier3_full.

End Routing.

(** [route_to_next] answers with one node name or with several. *)
Inductive Route :=
| RouteOne (name : pystr)
| RouteMany (names : list pystr).

(* ===================================================================== *)
(** ** state.py: the state threaded through the graph *)
(* ===================================================================== *)

Inductive Role := Human | AI.

(** A [BaseMessage]; [msg_id] is [None] until the message enters the
    [messages] channel. *)
Record Message := {
  msg_id : option N;
  msg_role : Role;
  msg_content : pystr
}.

Definition HumanMessage (content : pystr) : Message :=
  {| msg_id := None; msg_role := Human; msg_content := content |}.

Definition AIMessage (content : pystr) : Message :=
  {| msg_id := None; msg_role := AI; msg_content := content |}.

(** What a division stored under its name: a dict, or any other object. *)
Inductive Result :=
| RDict (items : dict pystr PyVal)
| RObj (v : PyVal).

(** The ["error"] key of the state: missing, [None], or a text. *)
Inductive ErrorField :=
| ErrAbsent
| ErrNone
| ErrText (s : pystr).

(** [PromotorStateDict]. A missing key reads as the default every
    [state.get] of the graph gives it; where the default matters
    ([brand_id], [error]) the field says whether the key is there.
    [dashboard_metrics] is read and written by no node and is left out. *)
Record State := {
  messages : list Message;
  current_division : option pystr;
  current_agent : option pystr;
  user_id : pystr;
  brand_id : option pystr;
  active_channels : list pystr;
  task_type : pystr;
  division_results : dict pystr Result;
  next_divisions : list pystr;
  completed_divisions : list pystr;
  use_mini_model : bool;
  cache_key : option pystr;
  error : ErrorField;
  retry_count : Z
}.

Definition create_initial_state (user brand : pystr)
    (channels : option (list pystr)) : State :=
  {| messages := [];
     current_division := None;
     current_agent := None;
     user_id := user;
     brand_id := Some brand;
     active_channels :=
       match channels with
       | Some (c :: cs) => c :: cs
       | _ => map u ["oliveyoung"; "coupang"; "naver"; "kakao"]
       end;
     task_type := task_value GENERAL_QUERY;
     division_results := [];
     next_divisions := [];
     completed_divisions := [];
     use_mini_model := false;
     cache_key := None;
     error := ErrNone;
     retry_count := 0%Z |}.

(** [{**state, "messages": ms}] and the like *)
Definition with_messages (st : State) (ms : list Message) : State :=
  {| messages := ms;
     current_division := current_division st;
     current_agent := current_agent st;
     user_id := user_id st;
     brand_id := brand_id st;
     active_channels := active_channels st;
     task_type := task_type st;
     division_results := division_results st;
     next_divisions := next_divisions st;
     completed_divisions := completed_divisions st;
     use_mini_model := use_mini_model st;
     cache_key := cache_key st;
     error := error st;
     retry_count := retry_count st |}.

Definition with_error (st : State) (e : ErrorField) : State :=
  {| messages := messages st;
     current_division := current_division st;
     current_agent := current_agent st;
     user_id := user_id st;
     brand_id := brand_id st;
     active_channels := active_channels st;
     task_type := task_type st;
     division_results := division_results st;
     next_divisions := next_divisions st;
     completed_divisions := completed_divisions st;
     use_mini_model := use_mini_model st;
     cache_key := cache_key st;
     error := e;
     retry_count := retry_count st |}.

Definition with_current_agent (st : State) (a : option pystr) : State :=
  {| messages := messages st;
     current_division := current_division st;
     current_agent := a;
     user_id := user_id st;
     brand_id := brand_id st;
     active_channels := active_channels st;
     task_type := task_type st;
     division_results := division_results st;
     next_divisions := next_divisions st;
     completed_divisions := completed_divisions st;
     use_mini_model := use_mini_model st;
     cache_key := cache_key st;
     error := error st;
     retry_count := retry_count st |}.

(** [if error:] *)
Definition error_set (e : ErrorField) : bool :=
  match e with
  | ErrText (_ :: _) => true
  | _ => false
  end.

(* ===================================================================== *)
(** ** The [add_messages] reducer of the [messages] channel *)
(* ===================================================================== *)

Module Reducer.

Definition max_id (ms : list Message) : N :=
  fold_right (fun m acc => match msg_id m with
                           | Some i => N.max i acc
                           | None => acc
                           end) 0%N ms.

(** Messages without an id get one that no other message has (a fresh
    uuid in the library, the next free number here). *)
Fixpoint assign_ids (next : N) (ms : list Message) : list Message * N :=
  match ms with
  | [] => ([], next)
  | m :: rest =>
      match msg_id m with
      | Some _ =>
          let (rest', n') := assign_ids next rest in (m :: rest', n')
      | None =>
          let (rest', n') := assign_ids (next + 1) rest in
          ({| msg_id := Some next; msg_role := msg_role m;
              msg_content := msg_content m |} :: rest', n')
      end
  end.

Definition same_id (a b : Message) : bool :=
  match msg_id a, msg_id b with
  | Some i, Some j => (i =? j)%N
  | _, _ => false
  end.

(** [merged[merged_by_id[m.id]] = m] when the id is known: the index kept
    for an id is the last one holding it. *)
Fixpoint replace_last (m : Message) (merged : list Message)
    : option (list Message) :=
  match merged with
  | [] => None
  | x :: rest =>
      match replace_last m rest with
      | Some rest' => Some (x :: rest')
      | None => if same_id x m then Some (m :: rest) else None
      end
  end.

Definition merge_one (merged : list Message) (m : Message) : list Message :=
  match replace_last m merged with
  | Some merged' => merged'
  | None => merged ++ [m]
  end.

Definition add_messages (left right : list Message) : list Message :=
  let next := (max_id (left ++ right) + 1)%N in
  let (left', next') := assign_ids next left in
  let (right', _) := assign_ids next' right in
  fold_left merge_one right' left'.

End Reducer.

(* ===================================================================== *)
(** ** routing.py: [route_to_next] *)
(* ===================================================================== *)

(** [[d for d in next_divisions if d not in completed]] *)
Definition pending_of (st : State) : list pystr :=
  filter (fun d => negb (py_in d (completed_divisions st)))
    (next_divisions st).

Definition supervisor_name (d : pystr) : pystr := d ++ u "_supervisor".

Definition route_to_next (state : State) : Route :=
  let next_divisions := next_divisions state in
  let completed := completed_divisions state in
  if error_set (error state) then RouteOne (u "error_handler")
  else if match next_divisions with [] => true | _ => false end
          || forallb (fun d => py_in d completed) next_divisions
  then RouteOne (u "response_aggregator")
  else
    match pending_of state with
    | [d] => RouteOne (supervisor_name d)
    | pending => RouteMany (map supervisor_name pending)
    end.

(* ===================================================================== *)
(** ** main_graph.py: the nodes *)
(* ===================================================================== *)

Definition newline : N := 10%N.

(** [str(v)], which is also how an f-string renders [v] *)
Definition py_text (v : PyVal) : pystr :=
  match v with
  | VStr s => s
  | VOther text _ => text
  end.

(** [bool(v)] *)
Definition py_truthy (v : PyVal) : bool :=
  match v with
  | VStr s => match s with [] => false | _ => true end
  | VOther _ t => t
  end.

Section Nodes.
Context `{RT : PyRuntime}.

(** [division_name.replace('_', ' ').title()] *)
Definition division_title (division_name : pystr) : pystr :=
  str_title (replace_char 95%N 32%N division_name).

Definition chief_coordinator (state : State) : State :=
  match messages state with
  | [] => with_error state (ErrText (u "No messages to process"))
  | m0 :: ms =>
      let last_message := last ms m0 in
      let query := msg_content last_message in
      let task := classify_task query in
      let divs := determine_divisions query task in
      let model_tier := determine_model_tier task query in
      let mini := str_eqb model_tier tier2_cheap in
      let key :=
        match brand_id state with Some b => b | None => u "default" end
          ++ u ":" ++ task_value task ++ u ":" ++ hash_text query in
      {| messages := messages state;
         current_division := None;
         current_agent := Some (u "chief_coordinator");
         user_id := user_id state;
         brand_id := brand_id state;
         active_channels := active_channels state;
         task_type := task_value task;
         division_results := division_results state;
         next_divisions := map division_value divs;
         completed_divisions := completed_divisions state;
         use_mini_model := mini;
         cache_key := Some key;
         error := error state;
         retry_count := retry_count state |}
  end.

(** The [summary] of one entry, as [response_aggregator] reads it. *)
Definition result_summary (result : Result) : pystr :=
  match result with
  | RDict items =>
      match dict_get items (u "summary") with
      | Some v => py_text v
      | None => dict_text items
      end
  | RObj v => py_text v
  end.

(** One element of [response_parts] *)
Definition response_part (entry : pystr * Result) : pystr :=
  u "**" ++ division_title (fst entry) ++ u "**: "
    ++ result_summary (snd entry).

Definition response_parts (division_results : dict pystr Result)
    : list pystr :=
  match division_results with
  | [] =>
      [u "I've processed your request but no specific division results were generated."]
  | _ => map response_part division_results
  end.

Definition aggregated_response (state : State) : pystr :=
  join [newline; newline] (response_parts (division_results state)).

Definition response_aggregator (state : State) : State :=
  with_current_agent
    (with_messages state [AIMessage (aggregated_response state)])
    (Some (u "response_aggregator")).

Definition error_message (state : State) : pystr :=
  u "An error occurred while processing your request: " ++
  match error state with
  | ErrAbsent => u "Unknown error occurred"
  | ErrNone => u "None"
  | ErrText e => e
  end.

Definition error_handler (state : State) : State :=
  with_current_agent
    (with_messages state [AIMessage (error_message state)])
    (Some (u "error_handler")).

(** The placeholder result of [division_supervisor] *)
Definition division_result (division_name : pystr) : Result :=
  RDict [ (u "division", VStr division_name);
          (u "status", VStr (u "processed"));
          (u "summary",
            VStr (division_title division_name
                    ++ u " division has processed the request.")) ].

Definition division_supervisor (division : Division) (state : State)
    : State :=
  let division_name := division_value division in
  let result := division_result division_name in
  let updated_results :=
    dict_set (division_results state) division_name result in
  let completed :=
    if py_in division_name (completed_divisions state)
    then completed_divisions state
    else completed_divisions state ++ [division_name] in
  {| messages := messages state;
     current_division := Some division_name;
     current_agent := current_agent state;
     user_id := user_id state;
     brand_id := brand_id state;
     active_channels := active_channels state;
     task_type := task_type state;
     division_results := updated_results;
     next_divisions := next_divisions state;
     completed_divisions := completed;
     use_mini_model := use_mini_model state;
     cache_key := cache_key state;
     error := error state;
     retry_count := retry_count state |}.

(** ** chief_coordinator.py: [ChiefCoordinator.aggregate_responses], the
    other aggregation of the repository *)

Definition section_content (result : Result) : pystr :=
  match result with
  | RDict items =>
      match dict_get items (u "summary") with
      | Some v =>
          if py_truthy v then py_text v
          else match dict_get items (u "content") with
               | Some w => if py_truthy w then py_text w else dict_text items
               | None => dict_text items
               end
      | None =>
          match dict_get items (u "content") with
          | Some w => if py_truthy w then py_text w else dict_text items
          | None => dict_text items
          end
      end
  | RObj v => py_text v
  end.

Definition multi_division_banner : pystr :=
  u "**Multi-Division Analysis Complete**" ++ [newline; newline].

Definition aggregate_responses_text (state : State) : pystr :=
  match division_results state with
  | [] => u "Request processed. No specific division results to aggregate."
  | results =>
      let sections :=
        map (fun entry => u "## " ++ division_title (fst entry)
                            ++ [newline] ++ section_content (snd entry))
            results in
      let response := join [newline; newline] sections in
      if 1 <? List.length results then multi_division_banner ++ response
      else response
  end.

Definition aggregate_responses (state : State) : State :=
  with_current_agent
    (with_messages state [AIMessage (aggregate_responses_text state)])
    (Some (u "chief_coordinator")).

End Nodes.

(* ===================================================================== *)
(** ** main_graph.py: routing between the nodes *)
(* ===================================================================== *)

Definition route_from_coordinator (state : State) : pystr :=
  if error_set (error state) then u "error_handler"
  else
    match next_divisions state with
    | [] => u "response_aggregator"
    | first_division :: _ => supervisor_name first_division
    end.

Definition route_from_division (state : State) : pystr :=
  match pending_of state with
  | [] => u "response_aggregator"
  | d :: _ => supervisor_name d
  end.

(** The nodes added by [create_main_graph] *)
Inductive Node :=
| N_chief_coordinator
| N_supervisor (d : Division)
| N_response_aggregator
| N_error_handler.

Definition node_name (n : Node) : pystr :=
  match n with
  | N_chief_coordinator => u "chief_coordinator"
  | N_supervisor d => supervisor_name (division_value d)
  | N_response_aggregator => u "response_aggregator"
  | N_error_handler => u "error_handler"
  end.

(** The mapping given to [add_conditional_edges] for a division node *)
Definition division_edges : dict pystr Node :=
  map (fun n => (node_name n, n))
    (map N_supervisor all_divisions ++ [N_response_aggregator]).

(** The mapping given to [add_conditional_edges] for the coordinator *)
Definition coordinator_edges : dict pystr Node :=
  division_edges ++ [(node_name N_error_handler, N_error_handler)].

(** Where the graph goes after a node ran: another node, [END], or nowhere
    when the router names no edge of the mapping (the library raises). *)
Inductive Next :=
| Goto (n : Node)
| ToEnd
| NoEdge (name : pystr).

Definition follow (edges : dict pystr Node) (name : pystr) : Next :=
  match dict_get edges name with
  | Some n => Goto n
  | None => NoEdge name
  end.

Definition next_of (n : Node) (state : State) : Next :=
  match n with
  | N_chief_coordinator => follow coordinator_edges (route_from_coordinator state)
  | N_supervisor _ => follow division_edges (route_from_division state)
  | N_response_aggregator => ToEnd
  | N_error_handler => ToEnd
  end.

(** How a run ends *)
Inductive RunEnd :=
| Done
| BadRoute (name : pystr)
| OutOfFuel.

Section Graph.
Context `{RT : PyRuntime}.

Definition node_fn (n : Node) : State -> State :=
  match n with
  | N_chief_coordinator => chief_coordinator
  | N_supervisor d => division_supervisor d
  | N_response_aggregator => response_aggregator
  | N_error_handler => error_handler
  end.

(** One node step: the node's return value is written to the channels;
    [messages] goes through its reducer, every other key is overwritten. *)
Definition exec (n : Node) (state : State) : State :=
  let update := node_fn n state in
  with_messages update
    (Reducer.add_messages (messages state) (messages update)).

(** The nodes run from [n] on, each with the state it left, at most [fuel]
    of them. *)
Fixpoint run (fuel : nat) (n : Node) (state : State)
    : list (Node * State) * RunEnd :=
  match fuel with
  | O => ([], OutOfFuel)
  | S fuel' =>
      let state' := exec n state in
      match next_of n state' with
      | ToEnd => ([(n, state')], Done)
      | NoEdge name => ([(n, state')], BadRoute name)
      | Goto n' =>
          let (trace, e) := run fuel' n' state' in ((n, state') :: trace, e)
      end
  end.

(** [graph.ainvoke(input)]: the input is written to the channels, then the
    graph runs from its entry point. *)
Definition graph_input (input : State) : State :=
  with_messages input (Reducer.add_messages [] (messages input)).

Definition invoke (fuel : nat) (input : State)
    : list (Node * State) * RunEnd :=
  run fuel N_chief_coordinator (graph_input input).

(** [process_request] *)
Definition process_request (fuel : nat) (query user brand : pystr)
    (channels : option (list pystr)) : list (Node * State) * RunEnd :=
  invoke fuel
    (with_messages (create_initial_state user brand channels)
       [HumanMessage query]).

End Graph.

(* ===================================================================== *)
(** * Properties *)
(* ===================================================================== *)

(** ** Lists without repetition, decided *)

Fixpoint nodupb {A : Type} `{Eqb A} (l : list A) : bool :=
  match l with
  | [] => true
  | x :: l' => negb (py_in x l') && nodupb l'
  end.

Lemma py_in_In {A : Type} `{Eqb A} (x : A) (l : list A) :
  py_in x l = true <-> In x l.
Proof.
  unfold py_in. rewrite existsb_exists. split.
  - intros [y [Hy E]]. apply eqb_eq in E. now subst.
  - intros Hx. exists x. split; [assumption | apply eqb_refl].
Qed.

Lemma py_in_false {A : Type} `{Eqb A} (x : A) (l : list A) :
  py_in x l = false <-> ~ In x l.
Proof.
  rewrite <- py_in_In. destruct (py_in x l); split; congruence.
Qed.

Lemma nodupb_NoDup {A : Type} `{Eqb A} (l : list A) :
  nodupb l = true -> NoDup l.
Proof.
  induction l as [|x l IH]; simpl; intros E.
  - constructor.
  - apply andb_true_iff in E as [Hx Hl]. constructor; [|auto].
    apply negb_true_iff in Hx. now apply py_in_false.
Qed.

(** ** Substrings *)

Lemma is_prefix_app (a s : pystr) :
  is_prefix a s = true <-> exists post, s = a ++ post.
Proof.
  revert s; induction a as [|x a IH]; intros s; simpl.
  - split; [intros _; now exists s | reflexivity].
  - destruct s as [|y s].
    + split; [discriminate | intros [post E]; discriminate E].
    + rewrite andb_true_iff, N.eqb_eq, IH. split.
      * intros [-> [post ->]]. now exists post.
      * intros [post E]. injection E as -> ->. split; [reflexivity | now exists post].
Qed.

(** [a in s] holds exactly when [s] is [pre ++ a ++ post]. *)
Lemma is_infix_app (a s : pystr) :
  is_infix a s = true <-> exists pre post, s = pre ++ a ++ post.
Proof.
  induction s as [|y s IH].
  - simpl. rewrite orb_false_r, is_prefix_app. split.
    + intros [post E]. now exists [], post.
    + intros [pre [post E]]. destruct pre; simpl in E.
      * now exists post.
      * discriminate E.
  - cbn [is_infix]. rewrite orb_true_iff, is_prefix_app, IH. split.
    + intros [[post E] | [pre [post E]]].
      * now exists [], post.
      * exists (y :: pre), post. simpl. now rewrite E.
    + intros [pre [post E]]. destruct pre as [|z pre]; simpl in E.
      * left. now exists post.
      * right. injection E as _ E. now exists pre, post.
Qed.

(** ** The classifier *)

Section ClassifierFacts.
Context `{RT : PyRuntime}.

(** The entries of [scores] in terms of the table: the categories with a
    positive score, in table order. *)
Definition scored (query_lower : pystr) (table : dict TaskType (list pystr))
    : dict TaskType nat :=
  filter (fun p => 0 <? snd p)
    (map (fun item => (fst item, keyword_score query_lower (snd item))) table).

Lemma scored_keys_incl (ql : pystr) (table : dict TaskType (list pystr)) (k : TaskType) :
  In k (dict_keys (scored ql table)) -> In k (dict_keys table).
Proof.
  unfold scored, dict_keys. intros Hin. apply in_map_iff in Hin as [[k' n] [<- Hin]].
  apply filter_In in Hin as [Hin _]. apply in_map_iff in Hin as [[k'' kws] [E Hin]].
  simpl in E. injection E as <- _. simpl.
  change k'' with (fst (k'', kws)). now apply in_map.
Qed.

Lemma scored_wf (ql : pystr) (table : dict TaskType (list pystr)) :
  dict_wf table -> dict_wf (scored ql table).
Proof.
  unfold dict_wf. induction table as [|[k kws] table IH]; intros Hnd.
  - constructor.
  - inversion Hnd as [|? ? Hni Hnd']; subst. unfold scored; simpl.
    destruct (0 <? keyword_score ql kws); [|now apply IH].
    simpl. constructor; [|now apply IH].
    intros Hin. apply Hni. now apply (scored_keys_incl ql).
Qed.

Lemma task_scores_fold (ql : pystr) (table : dict TaskType (list pystr))
    (acc : dict TaskType nat) :
  dict_wf table ->
  (forall k, In k (dict_keys table) -> ~ In k (dict_keys acc)) ->
  fold_left
    (fun scores item =>
       let score := keyword_score ql (snd item) in
       if 0 <? score then dict_set scores (fst item) score else scores)
    table acc
  = acc ++ scored ql table.
Proof.
  unfold dict_wf. revert acc.
  induction table as [|[k kws] table IH]; intros acc Hnd Hfresh.
  - simpl. now rewrite app_nil_r.
  - inversion Hnd as [|? ? Hni Hnd']; subst. cbn [fold_left fst snd].
    unfold scored; cbn [map filter fst snd]. fold (scored ql table).
    destruct (0 <? keyword_score ql kws) eqn:Epos.
    + rewrite dict_set_fresh by (apply Hfresh; now left).
      rewrite IH; [now rewrite <- app_assoc | assumption |].
      intros k' Hk'. unfold dict_keys. rewrite map_app, in_app_iff. simpl.
      intros [Hin | [<- | []]].
      * exact (Hfresh k' (or_intror Hk') Hin).
      * exact (Hni Hk').
    + apply IH; [assumption |]. intros k' Hk'. apply Hfresh. now right.
Qed.

Lemma TASK_KEYWORDS_wf : dict_wf TASK_KEYWORDS.
Proof. apply nodupb_NoDup. reflexivity. Qed.

Lemma task_scores_scored (ql : pystr) : task_scores ql = scored ql TASK_KEYWORDS.
Proof.
  unfold task_scores. rewrite task_scores_fold.
  - reflexivity.
  - exact TASK_KEYWORDS_wf.
  - intros k _ [].
Qed.

Lemma scores_at_In (d : dict TaskType nat) (e : TaskType * nat) :
  dict_wf d -> In e d -> scores_at d (fst e) = snd e.
Proof.
  intros Hwf Hin. unfold scores_at. destruct e as [k n].
  now rewrite (@dict_get_In _ _ _ d k n Hwf Hin).
Qed.

(** The loop of [max]: with [b] the best entry so far, the entries before it
    strictly smaller and those seen after it no larger, the result is the
    first entry of the whole dict that reaches the largest score. *)
Lemma max_key_first_max (d : dict TaskType nat) (rest l1 l2 : dict TaskType nat)
    (b : TaskType * nat) :
  dict_wf d ->
  d = l1 ++ b :: l2 ++ rest ->
  (forall z, In z l1 -> snd z < snd b) ->
  (forall z, In z l2 -> snd z <= snd b) ->
  exists l1' y l2',
    d = l1' ++ y :: l2' /\
    max_key d (fst b) (dict_keys rest) = fst y /\
    (forall z, In z l1' -> snd z < snd y) /\
    (forall z, In z l2' -> snd z <= snd y).
Proof.
  intros Hwf. revert l1 l2 b.
  induction rest as [|x rest IH]; intros l1 l2 b Hd H1 H2.
  - exists l1, b, l2. rewrite app_nil_r in Hd. simpl. auto.
  - unfold max_key. cbn [dict_keys map fold_left].
    assert (Hb : scores_at d (fst b) = snd b).
    { apply scores_at_In; [assumption |]. rewrite Hd. apply in_or_app.
      right. now left. }
    assert (Hx : scores_at d (fst x) = snd x).
    { apply scores_at_In; [assumption |]. rewrite Hd. apply in_or_app.
      right. right. apply in_or_app. right. now left. }
    rewrite Hb, Hx. destruct (snd b <? snd x) eqn:Elt.
    + apply Nat.ltb_lt in Elt.
      apply (IH (l1 ++ b :: l2) [] x).
      * rewrite Hd. rewrite <- app_assoc. reflexivity.
      * intros z Hz. apply in_app_or in Hz as [Hz | [<- | Hz]].
        -- specialize (H1 z Hz). lia.
        -- assumption.
        -- specialize (H2 z Hz). lia.
      * intros z [].
    + apply Nat.ltb_ge in Elt.
      apply (IH l1 (l2 ++ [x]) b).
      * rewrite Hd. rewrite <- app_assoc. reflexivity.
      * assumption.
      * intros z Hz. apply in_app_or in Hz as [Hz | [<- | []]]; auto.
Qed.

(** A split of the filtered scores comes from a split of the table. *)
Lemma scored_split (ql : pystr) (table : dict TaskType (list pystr))
    (l1 l2 : dict TaskType nat) (y : TaskType * nat) :
  scored ql table = l1 ++ y :: l2 ->
  exists before kws after,
    table = before ++ (fst y, kws) :: after /\
    keyword_score ql kws = snd y /\ 0 < snd y /\
    (forall e, In e before ->
       keyword_score ql (snd e) = 0 \/ In (fst e, keyword_score ql (snd e)) l1) /\
    (forall e, In e after ->
       keyword_score ql (snd e) = 0 \/ In (fst e, keyword_score ql (snd e)) l2).
Proof.
  revert l1. induction table as [|[k kws] table IH]; intros l1 E.
  - destruct l1; discriminate E.
  - unfold scored in E; cbn [map filter fst snd] in E. fold (scored ql table) in E.
    destruct (0 <? keyword_score ql kws) eqn:Epos.
    + destruct l1 as [|z l1]; simpl in E.
      * injection E as Ey E. exists [], kws, table. subst y. simpl.
        apply Nat.ltb_lt in Epos. repeat split; try assumption.
        -- intros e [].
        -- intros e He. destruct (0 <? keyword_score ql (snd e)) eqn:Ee.
           ++ right. rewrite <- E. unfold scored. apply filter_In. split.
              ** apply in_map_iff. now exists e.
              ** exact Ee.
           ++ left. apply Nat.ltb_ge in Ee. lia.
      * injection E as Ez E. destruct (IH l1 E) as [before [kws' [after [Ht [Hs [Hp [Hb Ha]]]]]]].
        exists ((k, kws) :: before), kws', after. subst table z.
        repeat split; try assumption. intros e [<- | He].
        -- right. now left.
        -- destruct (Hb e He) as [H0 | Hin]; [now left | right; now right].
    + destruct (IH l1 E) as [before [kws' [after [Ht [Hs [Hp [Hb Ha]]]]]]].
      exists ((k, kws) :: before), kws', after. subst table.
      repeat split; try assumption. intros e [<- | He].
      * left. apply Nat.ltb_ge in Epos. simpl. lia.
      * exact (Hb e He).
Qed.

(** The keywords of the table are already in lower case. *)
Lemma keyword_lower_fixed (kw : pystr) :
  forallb caseless_or_lower kw = true -> str_lower kw = kw.
Proof. apply str_lower_caseless. Qed.

Lemma keyword_score_fixed (ql : pystr) (kws : list pystr) :
  forallb (forallb caseless_or_lower) kws = true ->
  keyword_score ql kws = List.length (filter (fun kw => is_infix kw ql) kws).
Proof.
  intros Hk. unfold keyword_score. f_equal. apply filter_ext_in.
  intros kw Hin. rewrite forallb_forall in Hk. now rewrite keyword_lower_fixed by auto.
Qed.

Lemma max_key_in (d : dict TaskType nat) (first : TaskType) (rest : list TaskType) :
  In (max_key d first rest) (first :: rest).
Proof.
  unfold max_key. revert first. induction rest as [|x rest IH]; intros first.
  - now left.
  - cbn [fold_left]. destruct (scores_at d first <? scores_at d x).
    + right. apply IH.
    + destruct (IH first) as [E | Hin]; [now left | right; now right].
Qed.

(** What [classify_task] returns is the default or a key of the keyword
    table. *)
Lemma classify_task_range (query : pystr) :
  classify_task query = GENERAL_QUERY \/
  In (classify_task query) (dict_keys TASK_KEYWORDS).
Proof.
  unfold classify_task.
  destruct (dict_keys (task_scores (str_lower query))) as [|first rest] eqn:Ek.
  - now left.
  - right. apply (scored_keys_incl (str_lower query)).
    rewrite <- task_scores_scored, Ek. apply max_key_in.
Qed.

End ClassifierFacts.

Lemma TASK_KEYWORDS_lower :
  forallb (fun item => forallb (forallb caseless_or_lower) (snd item))
    TASK_KEYWORDS = true.
Proof. vm_compute. reflexivity. Qed.

Lemma scored_empty_query `{RT : PyRuntime} : scored [] TASK_KEYWORDS = [].
Proof.
  unfold scored.
  rewrite (map_ext_in _
             (fun item => (fst item,
                           List.length (filter (fun kw => is_infix kw []) (snd item))))).
  - vm_compute. reflexivity.
  - intros item Hin. f_equal. apply keyword_score_fixed.
    pose proof TASK_KEYWORDS_lower as Hl. rewrite forallb_forall in Hl. auto.
Qed.

(** The choice [classify_task] makes, in terms of [keyword_score]: the
    default when every entry of the table scores zero, otherwise the first
    entry with the largest score. *)
Lemma classify_task_by_score `{RT : PyRuntime} (query : pystr) :
  let score := keyword_score (str_lower query) in
  ((forall e, In e TASK_KEYWORDS -> score (snd e) = 0) /\
   classify_task query = GENERAL_QUERY
   \/
   exists before t kws after,
     TASK_KEYWORDS = before ++ (t, kws) :: after /\
     classify_task query = t /\
     0 < score kws /\
     (forall e, In e before -> score (snd e) < score kws) /\
     (forall e, In e after -> score (snd e) <= score kws))
  /\ classify_task [] = GENERAL_QUERY.
Proof.
  intros score. split.
  - unfold classify_task. rewrite task_scores_scored.
    destruct (scored (str_lower query) TASK_KEYWORDS) as [|e0 rest] eqn:Es.
    + left. split; [|reflexivity]. intros e He.
      destruct (0 <? score (snd e)) eqn:Epos.
      * exfalso.
        assert (Hin : In (fst e, score (snd e)) (scored (str_lower query) TASK_KEYWORDS)).
        { unfold scored. apply filter_In. split; [|exact Epos].
          apply in_map_iff. now exists e. }
        rewrite Es in Hin. destruct Hin.
      * apply Nat.ltb_ge in Epos. lia.
    + right. cbn [dict_keys map fst].
      assert (Hwf : dict_wf (e0 :: rest)).
      { rewrite <- Es. apply scored_wf. exact TASK_KEYWORDS_wf. }
      destruct (@max_key_first_max (e0 :: rest) rest [] [] e0 Hwf eq_refl)
        as [l1 [y [l2 [Hd [Hmax [Hlt Hle]]]]]]; try (intros z []).
      rewrite Hd in Es.
      destruct (scored_split _ _ _ _ _ Es)
        as [before [kws [after [Ht [Hs [Hpos [Hb Ha]]]]]]].
      exists before, (fst y), kws, after. unfold score. rewrite Hs.
      repeat split; try assumption.
      * intros e He. destruct (Hb e He) as [-> | Hin]; [assumption |].
        exact (Hlt _ Hin).
      * intros e He. destruct (Ha e He) as [-> | Hin]; [lia |].
        exact (Hle _ Hin).
  - unfold classify_task. rewrite (str_lower_caseless []) by reflexivity.
    rewrite task_scores_scored, scored_empty_query. reflexivity.
Qed.

(** The keywords of the table are in lower case already, so lower-casing
    one, as the scoring loop does, gives it back. *)
Lemma table_keyword_lower `{RT : PyRuntime} (e : TaskType * list pystr)
    (kw : pystr) :
  In e TASK_KEYWORDS -> In kw (snd e) -> str_lower kw = kw.
Proof.
  intros He Hkw. apply keyword_lower_fixed.
  pose proof TASK_KEYWORDS_lower as Hl. rewrite forallb_forall in Hl.
  specialize (Hl e He). rewrite forallb_forall in Hl. now apply Hl.
Qed.

(** On the entries of the table, [keyword_score] counts the keywords that
    occur in the lower-cased query. *)
Lemma table_score_counts `{RT : PyRuntime} (ql : pystr)
    (e : TaskType * list pystr) :
  In e TASK_KEYWORDS ->
  keyword_score ql (snd e)
  = List.length (filter (fun kw => is_infix kw ql) (snd e)).
Proof.
  intros He. apply keyword_score_fixed.
  pose proof TASK_KEYWORDS_lower as Hl. rewrite forallb_forall in Hl.
  exact (Hl e He).
Qed.

(** C1. The score of a category is the number of its keywords that occur
    as substrings of the lower-cased query: [is_infix kw (str_lower query)],
    which holds exactly when the lower-cased query is some text, the keyword,
    some text; the keywords are lower case themselves, so the match ignores
    the case of the query. [classify_task] returns the default category when
    every category scores zero, and otherwise the first category of
    [TASK_KEYWORDS], in declaration order, whose score is the largest one:
    its score is positive, every category declared before it scores strictly
    less and every category declared after it scores no more. The empty
    query gets the default category. *)
Theorem classify_task_first_max `{RT : PyRuntime} (query : pystr) :
  let occurs := fun kw : pystr => is_infix kw (str_lower query) in
  let score := fun kws : list pystr => List.length (filter occurs kws) in
  (forall kw, occurs kw = true <->
              exists pre post, str_lower query = pre ++ kw ++ post) /\
  (forall e kw, In e TASK_KEYWORDS -> In kw (snd e) -> str_lower kw = kw) /\
  ((forall e, In e TASK_KEYWORDS -> score (snd e) = 0) /\
   classify_task query = GENERAL_QUERY
   \/
   exists before t kws after,
     TASK_KEYWORDS = before ++ (t, kws) :: after /\
     classify_task query = t /\
     0 < score kws /\
     (forall e, In e before -> score (snd e) < score kws) /\
     (forall e, In e after -> score (snd e) <= score kws))
  /\ classify_task [] = GENERAL_QUERY.
Proof.
  intros occurs score.
  assert (Hs : forall e, In e TASK_KEYWORDS ->
                         keyword_score (str_lower query) (snd e) = score (snd e)).
  { intros e He. now apply table_score_counts. }
  destruct (classify_task_by_score query) as [Hchoice Hempty].
  split; [|split; [|split]].
  - intros kw. apply is_infix_app.
  - intros e kw. apply table_keyword_lower.
  - destruct Hchoice as [[Hzero Hgen] | Hfirst].
    + left. split; [|exact Hgen]. intros e He. rewrite <- Hs by exact He. auto.
    + right. destruct Hfirst as [before [t [kws [after [Ht [Hc [Hpos [Hb Ha]]]]]]]].
      exists before, t, kws, after.
      assert (Hin : forall e, In e (before ++ (t, kws) :: after) ->
                              In e TASK_KEYWORDS) by (now rewrite <- Ht).
      assert (Hk : keyword_score (str_lower query) kws = score kws).
      { apply (Hs (t, kws)). apply Hin. apply in_or_app. right. now left. }
      split; [exact Ht | split; [exact Hc | split; [|split]]].
      * now rewrite <- Hk.
      * intros e He. rewrite <- Hk, <- Hs; [now apply Hb |].
        apply Hin. apply in_or_app. now left.
      * intros e He. rewrite <- Hk, <- Hs; [now apply Ha |].
        apply Hin. apply in_or_app. right. now right.
  - exact Hempty.
Qed.

(** C10. For every query, [classify_task] returns neither [INVENTORY_CHECK]
    nor [CROSS_CHANNEL]: it returns the default or a category that owns a
    keyword list, and these two own none. Their [TASK_TO_DIVISION] entries,
    both [CHANNEL_MANAGEMENT], are therefore never the ones consulted for a
    classified query. *)
Theorem classify_task_never_unkeyed `{RT : PyRuntime} (query : pystr) :
  classify_task query <> INVENTORY_CHECK /\
  classify_task query <> CROSS_CHANNEL /\
  (classify_task query = GENERAL_QUERY \/
   In (classify_task query) (dict_keys TASK_KEYWORDS)) /\
  dict_get TASK_KEYWORDS INVENTORY_CHECK = None /\
  dict_get TASK_KEYWORDS CROSS_CHANNEL = None /\
  dict_get TASK_TO_DIVISION INVENTORY_CHECK = Some CHANNEL_MANAGEMENT /\
  dict_get TASK_TO_DIVISION CROSS_CHANNEL = Some CHANNEL_MANAGEMENT.
Proof.
  pose proof (classify_task_range query) as Hr.
  assert (Hnot : forall t, py_in t (dict_keys TASK_KEYWORDS) = false ->
                           t <> GENERAL_QUERY -> classify_task query <> t).
  { intros t Hout Hgen E. rewrite E in Hr. destruct Hr as [Hr | Hr].
    - contradiction.
    - apply py_in_In in Hr. congruence. }
  repeat split; try reflexivity; try exact Hr.
  - apply Hnot; [reflexivity | discriminate].
  - apply Hnot; [reflexivity | discriminate].
Qed.

(** ** The division router *)

(** [for x in l: if f(x): return x]: the element found is the first one
    accepted. *)
Lemma find_first {A : Type} (f : A -> bool) (l : list A) (x : A) :
  find f l = Some x ->
  exists before after,
    l = before ++ x :: after /\
    (forall c, In c before -> f c = false) /\ f x = true.
Proof.
  induction l as [|a l IH]; simpl; intros E.
  - discriminate E.
  - destruct (f a) eqn:Ea.
    + injection E as ->. exists [], l. repeat split; auto. intros c [].
    + destruct (IH E) as [before [after [-> [Hb Hx]]]].
      exists (a :: before), after. repeat split; auto.
      intros c [<- | Hc]; auto.
Qed.

Lemma MULTI_DIVISION_PATTERNS_nodup :
  forallb (fun cfg => nodupb (divisions cfg)) MULTI_DIVISION_PATTERNS = true.
Proof. reflexivity. Qed.

(** C2. [determine_divisions] returns the division list, as declared, of the
    first entry of [MULTI_DIVISION_PATTERNS] whose pattern is found in the
    lower-cased query; when no pattern is found it returns the single
    [TASK_TO_DIVISION] entry of the category, or the empty list for a category
    outside the table. The list returned holds no division twice. *)
Theorem determine_divisions_first_pattern `{RT : PyRuntime}
    (query : pystr) (task_type : TaskType) :
  let query_lower := str_lower query in
  ((exists before cfg after,
      MULTI_DIVISION_PATTERNS = before ++ cfg :: after /\
      (forall c, In c before -> re_search (pattern c) query_lower = false) /\
      re_search (pattern cfg) query_lower = true /\
      determine_divisions query task_type = divisions cfg)
   \/
   ((forall c, In c MULTI_DIVISION_PATTERNS ->
               re_search (pattern c) query_lower = false) /\
    ((exists d, dict_get TASK_TO_DIVISION task_type = Some d /\
                determine_divisions query task_type = [d])
     \/
     (~ In task_type (dict_keys TASK_TO_DIVISION) /\
      determine_divisions query task_type = []))))
  /\ NoDup (determine_divisions query task_type).
Proof.
  intros query_lower. unfold determine_divisions. fold query_lower.
  destruct (find (fun cfg => re_search (pattern cfg) query_lower)
              MULTI_DIVISION_PATTERNS) as [cfg|] eqn:Ef.
  - split.
    + left. destruct (find_first _ _ Ef) as [before [after [Hl [Hb Hx]]]].
      exists before, cfg, after. auto.
    + apply find_some in Ef as [Hin _].
      pose proof MULTI_DIVISION_PATTERNS_nodup as Hn.
      rewrite forallb_forall in Hn. apply nodupb_NoDup. auto.
  - pose proof (find_none _ _ Ef) as Hnone.
    destruct (dict_get TASK_TO_DIVISION task_type) as [d|] eqn:Ed.
    + split.
      * right. split; [exact Hnone |]. left. now exists d.
      * constructor; [intros [] | constructor].
    + split.
      * right. split; [exact Hnone |]. right. split; [|reflexivity].
        now apply dict_get_None.
      * constructor.
Qed.

(** ** What the matcher accepts *)

Section RegexFacts.
Context `{RT : PyRuntime}.

(** The strings a pattern stands for: a literal matches character by
    character without regard to case, [.*] any string without a newline. *)
Inductive re_denotes : regex -> pystr -> Prop :=
| D_lit (l x : pystr) :
    Forall2 (fun p c => re_ichar p c = true) l x -> re_denotes (RLit l) x
| D_dotstar (x : pystr) :
    ~ In newline x -> re_denotes RDotStar x
| D_cat (a b : regex) (x y : pystr) :
    re_denotes a x -> re_denotes b y -> re_denotes (RCat a b) (x ++ y)
| D_alt_left (a b : regex) (x : pystr) :
    re_denotes a x -> re_denotes (RAlt a b) x
| D_alt_right (a b : regex) (x : pystr) :
    re_denotes b x -> re_denotes (RAlt a b) x.

Lemma re_lit_prefix (l s rest : pystr) :
  re_lit l s = Some rest <->
  exists x, s = x ++ rest /\ Forall2 (fun p c => re_ichar p c = true) l x.
Proof.
  revert s. induction l as [|p l IH]; intros s; simpl.
  - split.
    + intros E. injection E as ->. exists []. split; [reflexivity | constructor].
    + intros [x [-> Hx]]. inversion Hx. reflexivity.
  - destruct s as [|c s].
    + split; [discriminate |]. intros [x [E Hx]]. inversion Hx; subst.
      discriminate E.
    + destruct (re_ichar p c) eqn:Epc.
      * rewrite IH. split.
        -- intros [x [-> Hx]]. exists (c :: x). split; [reflexivity |].
           now constructor.
        -- intros [x [E Hx]]. inversion Hx as [|? c' ? x' Hpc Hrest]; subst.
           injection E as <- ->. now exists x'.
      * split; [discriminate |]. intros [x [E Hx]].
        inversion Hx as [|? c' ? x' Hpc Hrest]; subst.
        injection E as <- _. congruence.
Qed.

Lemma re_dotstar_split (k : pystr -> bool) (s : pystr) :
  re_dotstar k s = true <->
  exists x rest, s = x ++ rest /\ ~ In newline x /\ k rest = true.
Proof.
  induction s as [|c s IH].
  - simpl. rewrite orb_false_r. split.
    + intros Hk. exists [], []. repeat split; auto.
    + intros [x [rest [E [_ Hk]]]]. symmetry in E.
      apply app_eq_nil in E as [_ ->]. exact Hk.
  - cbn [re_dotstar]. rewrite orb_true_iff. split.
    + intros [Hk | Hs].
      * exists [], (c :: s). repeat split; auto.
      * destruct (c =? 10)%N eqn:Ec; [discriminate Hs |].
        apply IH in Hs as [x [rest [-> [Hx Hk]]]].
        exists (c :: x), rest. repeat split; [| exact Hk].
        intros [E | Hin]; [|contradiction].
        apply N.eqb_neq in Ec. unfold newline in E. congruence.
    + intros [x [rest [E [Hx Hk]]]]. destruct x as [|c' x]; simpl in E.
      * left. now rewrite E.
      * right. injection E as <- ->.
        destruct (c =? 10)%N eqn:Ec.
        -- apply N.eqb_eq in Ec. exfalso. apply Hx. left.
           unfold newline. now rewrite Ec.
        -- apply IH. exists x, rest. repeat split; [| exact Hk].
           intros Hin. apply Hx. now right.
Qed.

(** [re_match] accepts exactly the splits of the subject into a string of
    the pattern and a rest that the continuation accepts. *)
Lemma re_match_denotes (r : regex) :
  forall (s : pystr) (k : pystr -> bool),
    re_match r s k = true <->
    exists x rest, s = x ++ rest /\ re_denotes r x /\ k rest = true.
Proof.
  induction r as [l | | a IHa b IHb | a IHa b IHb]; intros s k; simpl.
  - destruct (re_lit l s) as [rest|] eqn:El.
    + apply re_lit_prefix in El as [x [-> Hx]]. split.
      * intros Hk. exists x, rest. repeat split; [now constructor | exact Hk].
      * intros [x' [rest' [E [Hd Hk]]]]. inversion Hd as [? ? Hx'| | | |]; subst.
        assert (Ex : x' = x /\ rest' = rest).
        { clear - E Hx Hx'. revert x x' E Hx Hx'.
          induction l as [|p l IH]; intros x x' E Hx Hx'.
          - inversion Hx; inversion Hx'; subst. simpl in E. auto.
          - inversion Hx as [|? c ? y Hc Hy]; inversion Hx' as [|? c' ? y' Hc' Hy'];
              subst. simpl in E. injection E as <- E.
            destruct (IH y y' E Hy Hy') as [-> ->]. auto. }
        destruct Ex as [_ ->]. exact Hk.
    + split; [discriminate |]. intros [x [rest [E [Hd Hk]]]].
      inversion Hd as [? ? Hx| | | |]; subst.
      assert (Hsome : re_lit l (x ++ rest) = Some rest)
        by (apply re_lit_prefix; now exists x).
      congruence.
  - rewrite re_dotstar_split. split.
    + intros [x [rest [E [Hx Hk]]]]. exists x, rest.
      repeat split; [exact E | now constructor | exact Hk].
    + intros [x [rest [E [Hd Hk]]]]. inversion Hd; subst. now exists x, rest.
  - rewrite IHa. split.
    + intros [x [rest [-> [Hx Hb]]]]. apply IHb in Hb as [y [rest' [-> [Hy Hk]]]].
      exists (x ++ y), rest'. repeat split; [now rewrite app_assoc | | exact Hk].
      now constructor.
    + intros [xy [rest [-> [Hd Hk]]]]. inversion Hd as [| |? ? x y Hx Hy| |]; subst.
      exists x, (y ++ rest). repeat split; [now rewrite app_assoc | exact Hx |].
      apply IHb. now exists y, rest.
  - rewrite orb_true_iff, IHa, IHb. split.
    + intros [[x [rest [-> [Hx Hk]]]] | [x [rest [-> [Hx Hk]]]]];
        exists x, rest; repeat split; try exact Hk.
      * now apply D_alt_left.
      * now apply D_alt_right.
    + intros [x [rest [-> [Hd Hk]]]]. inversion Hd; subst.
      * left. now exists x, rest.
      * right. now exists x, rest.
Qed.

(** [re.search] succeeds exactly when some substring of the subject is a
    string of the pattern. *)
Lemma re_search_denotes (r : regex) (s : pystr) :
  re_search r s = true <->
  exists pre x post, s = pre ++ x ++ post /\ re_denotes r x.
Proof.
  induction s as [|c s IH].
  - simpl. rewrite orb_false_r, re_match_denotes. split.
    + intros [x [rest [E [Hd _]]]]. now exists [], x, rest.
    + intros [pre [x [post [E Hd]]]]. destruct pre; [|discriminate E].
      now exists x, post.
  - cbn [re_search]. rewrite orb_true_iff, re_match_denotes, IH. split.
    + intros [[x [rest [E [Hd _]]]] | [pre [x [post [E Hd]]]]].
      * now exists [], x, rest.
      * exists (c :: pre), x, post. simpl. now rewrite E.
    + intros [pre [x [post [E Hd]]]]. destruct pre as [|c' pre]; simpl in E.
      * left. now exists x, post.
      * right. injection E as _ ->. now exists pre, x, post.
Qed.

End RegexFacts.

(** ** The model tier *)

(** C4. [determine_model_tier] decides in this order: a category of the
    no-model set gets [tier1_free]; otherwise a category of the cheap set
    gets [tier2_cheap]; otherwise a query shorter than 50 characters whose
    category is not one of the two always-expensive ones gets [tier2_cheap];
    everything else gets [tier3_full]. The three tier names differ. *)
Theorem determine_model_tier_policy (task_type : TaskType) (query : pystr) :
  let no_model := [INVENTORY_MONITORING; CHANNEL_STATUS] in
  let cheap := [PRICE_MONITORING; CHECKLIST_VALIDATION] in
  let expensive := [PROMOTION_PLANNING; MULTI_DIVISION] in
  (In task_type no_model ->
     determine_model_tier task_type query = tier1_free) /\
  (~ In task_type no_model -> In task_type cheap ->
     determine_model_tier task_type query = tier2_cheap) /\
  (~ In task_type no_model -> ~ In task_type cheap ->
   List.length query < 50 -> ~ In task_type expensive ->
     determine_model_tier task_type query = tier2_cheap) /\
  (~ In task_type no_model -> ~ In task_type cheap ->
   (50 <= List.length query \/ In task_type expensive) ->
     determine_model_tier task_type query = tier3_full) /\
  tier1_free <> tier2_cheap /\ tier1_free <> tier3_full /\
  tier2_cheap <> tier3_full.
Proof.
  intros no_model cheap expensive. unfold determine_model_tier.
  destruct (py_in task_type [INVENTORY_MONITORING; CHANNEL_STATUS]) eqn:E1;
    [apply py_in_In in E1 | apply py_in_false in E1];
    fold no_model in E1.
  - repeat split; try tauto; try discriminate.
  - destruct (py_in task_type [PRICE_MONITORING; CHECKLIST_VALIDATION]) eqn:E2;
      [apply py_in_In in E2 | apply py_in_false in E2];
      fold cheap in E2.
    + repeat split; try tauto; try discriminate.
    + destruct (py_in task_type [PROMOTION_PLANNING; MULTI_DIVISION]) eqn:E3;
        [apply py_in_In in E3 | apply py_in_false in E3];
        fold expensive in E3;
        destruct (List.length query <? 50) eqn:E4;
        [apply Nat.ltb_lt in E4 | apply Nat.ltb_ge in E4
        |apply Nat.ltb_lt in E4 | apply Nat.ltb_ge in E4];
        cbn [andb negb];
        repeat split; try tauto; try discriminate;
        intros; try reflexivity; try tauto; try lia.
      exfalso.
      match goal with
      | Hor : _ \/ _ |- _ => destruct Hor as [Hlen | Hexp]; [lia | contradiction]
      end.
Qed.

(** ** The coordinator node *)

(** C9. On a state with at least one message, the coordinator stores of the
    tier chosen by [determine_model_tier] nothing but [use_mini_model], which
    is [true] exactly for [tier2_cheap]: the state it returns is the input
    with [task_type], [next_divisions], [use_mini_model], [cache_key],
    [current_division] and [current_agent] replaced, and none of the other
    five mentions the tier. A [tier1_free] request and a [tier3_full] request
    both leave [use_mini_model] at [false]. *)
Theorem coordinator_keeps_mini_flag_only `{RT : PyRuntime}
    (state : State) (m0 : Message) (ms : list Message) :
  let input := with_messages state (m0 :: ms) in
  let query := msg_content (last ms m0) in
  let task := classify_task query in
  let tier := determine_model_tier task query in
  let out := chief_coordinator input in
  (use_mini_model out = true <-> tier = tier2_cheap) /\
  (tier = tier1_free -> use_mini_model out = false) /\
  (tier = tier3_full -> use_mini_model out = false) /\
  task_type out = task_value task /\
  next_divisions out = map division_value (determine_divisions query task) /\
  cache_key out =
    Some (match brand_id state with Some b => b | None => u "default" end
            ++ u ":" ++ task_value task ++ u ":" ++ hash_text query) /\
  current_division out = None /\
  current_agent out = Some (u "chief_coordinator") /\
  messages out = m0 :: ms /\
  user_id out = user_id state /\
  brand_id out = brand_id state /\
  active_channels out = active_channels state /\
  division_results out = division_results state /\
  completed_divisions out = completed_divisions state /\
  error out = error state /\
  retry_count out = retry_count state.
Proof.
  intros input query task tier out.
  assert (Hmini : use_mini_model out = str_eqb tier tier2_cheap) by reflexivity.
  repeat split; try reflexivity.
  - rewrite Hmini. apply str_eqb_eq.
  - rewrite Hmini. apply str_eqb_eq.
  - intros E. rewrite Hmini, E. reflexivity.
  - intros E. rewrite Hmini, E. reflexivity.
Qed.

(** A stock request (no-model tier) and a long general request (full tier)
    leave the coordinator with the same flag. *)
Example coordinator_free_and_full_look_alike :
  let q1 := u "inventory" in
  let q2 := u "hello there, could you tell me something interesting about today" in
  let st q := with_messages (create_initial_state (u "u") (u "b") None)
                [HumanMessage q] in
  determine_model_tier (@classify_task ascii_runtime q1) q1 = tier1_free /\
  determine_model_tier (@classify_task ascii_runtime q2) q2 = tier3_full /\
  use_mini_model (@chief_coordinator ascii_runtime (st q1)) = false /\
  use_mini_model (@chief_coordinator ascii_runtime (st q2)) = false.
Proof. vm_compute. repeat split; reflexivity. Qed.

(** ** The orchestration graph: what one node step changes *)

Section StepFacts.
Context `{RT : PyRuntime}.

Lemma exec_completed (n : Node) (state : State) :
  completed_divisions (exec n state) =
  match n with
  | N_supervisor d =>
      if py_in (division_value d) (completed_divisions state)
      then completed_divisions state
      else completed_divisions state ++ [division_value d]
  | _ => completed_divisions state
  end.
Proof.
  destruct n; try reflexivity.
  unfold exec, node_fn, chief_coordinator.
  destruct (messages state); reflexivity.
Qed.

Lemma exec_results (n : Node) (state : State) :
  division_results (exec n state) =
  match n with
  | N_supervisor d =>
      dict_set (division_results state) (division_value d)
        (division_result (division_value d))
  | _ => division_results state
  end.
Proof.
  destruct n; try reflexivity.
  unfold exec, node_fn, chief_coordinator.
  destruct (messages state); reflexivity.
Qed.

Lemma exec_next_divisions (n : Node) (state : State) :
  next_divisions (exec n state) =
  match n, messages state with
  | N_chief_coordinator, m0 :: ms =>
      let query := msg_content (last ms m0) in
      map division_value (determine_divisions query (classify_task query))
  | _, _ => next_divisions state
  end.
Proof.
  destruct n; try (destruct (messages state); reflexivity).
  unfold exec, node_fn, chief_coordinator.
  destruct (messages state); reflexivity.
Qed.

Lemma exec_error (n : Node) (state : State) :
  error (exec n state) =
  match n, messages state with
  | N_chief_coordinator, [] => ErrText (u "No messages to process")
  | _, _ => error state
  end.
Proof.
  destruct n; try (destruct (messages state); reflexivity).
  unfold exec, node_fn, chief_coordinator.
  destruct (messages state); reflexivity.
Qed.

(** The names in [next_divisions] are division names once the coordinator
    has routed. *)
Definition routed_names (state : State) : Prop :=
  Forall (fun name => exists d, name = division_value d)
    (next_divisions state).

Lemma coordinator_routes_names (state : State) :
  error_set (error (exec N_chief_coordinator state)) = false ->
  routed_names (exec N_chief_coordinator state).
Proof.
  unfold routed_names. rewrite exec_next_divisions, exec_error.
  destruct (messages state) as [|m0 ms].
  - discriminate.
  - intros _. apply Forall_forall. intros name Hin.
    apply in_map_iff in Hin as [d [<- _]]. now exists d.
Qed.

Lemma supervisor_keeps_names (d : Division) (state : State) :
  routed_names state -> routed_names (exec (N_supervisor d) state).
Proof. unfold routed_names. now rewrite exec_next_divisions. Qed.

End StepFacts.

(** ** The edges *)

Lemma follow_supervisor (d : Division) :
  follow division_edges (supervisor_name (division_value d))
  = Goto (N_supervisor d).
Proof. destruct d; reflexivity. Qed.

Lemma follow_supervisor_from_coordinator (d : Division) :
  follow coordinator_edges (supervisor_name (division_value d))
  = Goto (N_supervisor d).
Proof. destruct d; reflexivity. Qed.

Lemma named_edges_key (nodes : list Node) (name : pystr) (n : Node) :
  dict_get (map (fun n => (node_name n, n)) nodes) name = Some n ->
  name = node_name n /\ In n nodes.
Proof.
  induction nodes as [|a nodes IH]; simpl; intros E.
  - discriminate E.
  - destruct (str_eqb (node_name a) name) eqn:Ea.
    + injection E as ->. apply str_eqb_eq in Ea. auto.
    + destruct (IH E). auto.
Qed.

Lemma supervisor_name_inj (a b : pystr) :
  supervisor_name a = supervisor_name b -> a = b.
Proof. unfold supervisor_name. apply app_inv_tail. Qed.

(** From a division node the graph goes to the first pending division, or
    to the aggregator when none is pending. *)
Lemma next_of_supervisor (d0 : Division) (state : State) :
  routed_names state ->
  match pending_of state with
  | [] => next_of (N_supervisor d0) state = Goto N_response_aggregator
  | name :: _ =>
      exists d, name = division_value d /\
                next_of (N_supervisor d0) state = Goto (N_supervisor d)
  end.
Proof.
  intros Hnames. unfold next_of, route_from_division.
  destruct (pending_of state) as [|name rest] eqn:Ep.
  - reflexivity.
  - assert (Hin : In name (next_divisions state)).
    { assert (Hp : In name (pending_of state)) by (rewrite Ep; now left).
      unfold pending_of in Hp. now apply filter_In in Hp. }
    unfold routed_names in Hnames. rewrite Forall_forall in Hnames.
    destruct (Hnames name Hin) as [d ->]. exists d. split; [reflexivity |].
    apply follow_supervisor.
Qed.

Lemma filter_length_mono {A : Type} (f g : A -> bool) (l : list A) :
  (forall y, g y = true -> f y = true) ->
  List.length (filter g l) <= List.length (filter f l).
Proof.
  intros Hgf. induction l as [|b l IHl]; simpl; [lia |].
  destruct (g b) eqn:Eg.
  - rewrite (Hgf b Eg). simpl. lia.
  - destruct (f b); simpl; lia.
Qed.

Lemma filter_length_lt {A : Type} (f g : A -> bool) (l : list A) (x : A) :
  (forall y, g y = true -> f y = true) ->
  In x l -> f x = true -> g x = false ->
  List.length (filter g l) < List.length (filter f l).
Proof.
  intros Hgf. induction l as [|a l IH]; simpl; intros Hin Hf Hg.
  - contradiction.
  - pose proof (filter_length_mono f g l Hgf) as Hle.
    destruct Hin as [-> | Hin].
    + rewrite Hf, Hg. simpl. lia.
    + specialize (IH Hin Hf Hg). destruct (g a) eqn:Eg.
      * rewrite (Hgf a Eg). simpl. lia.
      * destruct (f a); simpl; lia.
Qed.

(** ** The orchestration graph: termination *)

Section Termination.
Context `{RT : PyRuntime}.

Lemma run_step (fuel : nat) (n : Node) (state : State) :
  run (S fuel) n state =
  match next_of n (exec n state) with
  | ToEnd => ([(n, exec n state)], Done)
  | NoEdge name => ([(n, exec n state)], BadRoute name)
  | Goto n' =>
      let (trace, e) := run fuel n' (exec n state) in
      ((n, exec n state) :: trace, e)
  end.
Proof. reflexivity. Qed.

Lemma supervisor_completes (d : Division) (state : State) :
  In (division_value d) (completed_divisions (exec (N_supervisor d) state)).
Proof.
  rewrite exec_completed.
  destruct (py_in (division_value d) (completed_divisions state)) eqn:E.
  - now apply py_in_In.
  - apply in_or_app. right. now left.
Qed.

Lemma completed_grows (n : Node) (state : State) :
  exists added,
    completed_divisions (exec n state) = completed_divisions state ++ added.
Proof.
  rewrite exec_completed. destruct n; try (exists []; now rewrite app_nil_r).
  destruct (py_in (division_value d) (completed_divisions state)).
  - exists []. now rewrite app_nil_r.
  - now exists [division_value d].
Qed.

(** A visit of a pending division leaves strictly fewer pending ones. *)
Lemma pending_shrinks (d : Division) (state : State) :
  In (division_value d) (pending_of state) ->
  List.length (pending_of (exec (N_supervisor d) state))
  < List.length (pending_of state).
Proof.
  intros Hp. unfold pending_of in *. apply filter_In in Hp as [Hin Hnot].
  rewrite exec_next_divisions, exec_completed.
  apply negb_true_iff in Hnot. rewrite Hnot.
  apply filter_length_lt with (x := division_value d).
  - intros y Hy. apply negb_true_iff in Hy. apply negb_true_iff.
    apply py_in_false. apply py_in_false in Hy. intros Hc. apply Hy.
    apply in_or_app. now left.
  - exact Hin.
  - now rewrite Hnot.
  - apply negb_false_iff. apply py_in_In. apply in_or_app. right. now left.
Qed.

(** After the first division the coordinator sent the request to, at most
    the other routed divisions are pending. *)
Lemma pending_after_first (d : Division) (rest : list pystr) (state : State) :
  next_divisions state = division_value d :: rest ->
  List.length (pending_of (exec (N_supervisor d) state)) <= List.length rest.
Proof.
  intros Hn. unfold pending_of. rewrite exec_next_divisions. cbn match. rewrite Hn.
  cbn [filter].
  assert (Hin : py_in (division_value d)
                  (completed_divisions (exec (N_supervisor d) state)) = true).
  { apply py_in_In. apply supervisor_completes. }
  rewrite Hin. cbn [negb]. apply List.filter_length_le.
Qed.

Lemma run_terminal (fuel : nat) (n : Node) (state : State) :
  next_of n (exec n state) = ToEnd ->
  run (S fuel) n state = ([(n, exec n state)], Done).
Proof. intros E. rewrite run_step, E. reflexivity. Qed.

(** From a division node with at most [k] divisions pending after it, the
    graph ends after at most [k + 2] nodes: the division, the pending ones,
    the aggregator. *)
Lemma run_divisions (k : nat) :
  forall (d : Division) (state : State),
    routed_names state ->
    List.length (pending_of (exec (N_supervisor d) state)) <= k ->
    exists trace,
      List.length trace <= k + 2 /\
      forall fuel, k + 2 <= fuel ->
        run fuel (N_supervisor d) state = (trace, Done).
Proof.
  induction k as [|k IH]; intros d state Hnames Hk.
  - pose proof (next_of_supervisor d (supervisor_keeps_names d Hnames)) as Hnext.
    destruct (pending_of (exec (N_supervisor d) state)) as [|name rest];
      [|simpl in Hk; lia].
    exists [(N_supervisor d, exec (N_supervisor d) state);
            (N_response_aggregator,
              exec N_response_aggregator (exec (N_supervisor d) state))].
    split; [simpl; lia |]. intros fuel Hf.
    destruct fuel as [|[|fuel]]; try lia.
    rewrite run_step, Hnext. now rewrite run_terminal.
  - pose proof (next_of_supervisor d (supervisor_keeps_names d Hnames)) as Hnext.
    destruct (pending_of (exec (N_supervisor d) state)) as [|name rest] eqn:Ep.
    + exists [(N_supervisor d, exec (N_supervisor d) state);
              (N_response_aggregator,
                exec N_response_aggregator (exec (N_supervisor d) state))].
      split; [simpl; lia |]. intros fuel Hf.
      destruct fuel as [|[|fuel]]; try lia.
      rewrite run_step, Hnext. now rewrite run_terminal.
    + destruct Hnext as [d' [-> Hnext]].
      assert (Hlt : List.length (pending_of (exec (N_supervisor d')
                                   (exec (N_supervisor d) state))) <= k).
      { assert (Hp : In (division_value d')
                       (pending_of (exec (N_supervisor d) state)))
          by (rewrite Ep; now left).
        pose proof (pending_shrinks d' _ Hp) as Hs. rewrite Ep in Hs.
        simpl in Hs, Hk. lia. }
      destruct (IH d' _ (supervisor_keeps_names d Hnames) Hlt)
        as [trace [Hlen Hrun]].
      exists ((N_supervisor d, exec (N_supervisor d) state) :: trace).
      split; [simpl; lia |]. intros fuel Hf.
      destruct fuel as [|fuel]; try lia.
      rewrite run_step, Hnext. rewrite Hrun by lia. reflexivity.
Qed.

End Termination.

(** C6. From every state the graph ends, and after at most as many node
    steps as the coordinator routed divisions plus two (the coordinator and
    the aggregator or the error handler); any larger fuel gives the same run.
    No node removes a name from [completed_divisions]; a division step leaves
    its division in [completed_divisions]; and from a division node the graph
    only goes on to a division that is not in [completed_divisions]. *)
Theorem graph_terminates `{RT : PyRuntime} (state : State) :
  let routed := next_divisions (exec N_chief_coordinator state) in
  (exists trace,
     List.length trace <= List.length routed + 2 /\
     forall fuel, List.length routed + 2 <= fuel ->
       run fuel N_chief_coordinator state = (trace, Done)) /\
  (forall n st, exists added,
       completed_divisions (exec n st) = completed_divisions st ++ added) /\
  (forall d st,
       In (division_value d)
          (completed_divisions (exec (N_supervisor d) st))) /\
  (forall d0 d st,
       next_of (N_supervisor d0) st = Goto (N_supervisor d) ->
       ~ In (division_value d) (completed_divisions st)).
Proof.
  intros routed. split; [|split; [|split]].
  - set (st1 := exec N_chief_coordinator state) in *.
    destruct (error_set (error st1)) eqn:Eerr.
    + exists [(N_chief_coordinator, st1);
              (N_error_handler, exec N_error_handler st1)].
      split; [simpl; lia |]. intros fuel Hf.
      destruct fuel as [|[|fuel]]; try lia.
      rewrite run_step. fold st1. unfold next_of at 1, route_from_coordinator.
      rewrite Eerr. change (follow coordinator_edges (u "error_handler"))
        with (Goto N_error_handler). cbv beta iota. now rewrite run_terminal.
    + pose proof (coordinator_routes_names state Eerr) as Hnames. fold st1 in Hnames.
      destruct (next_divisions st1) as [|name rest] eqn:En.
      * exists [(N_chief_coordinator, st1);
                (N_response_aggregator, exec N_response_aggregator st1)].
        split; [simpl; lia |]. intros fuel Hf.
        destruct fuel as [|[|fuel]]; try lia.
        rewrite run_step. fold st1. unfold next_of at 1, route_from_coordinator.
        rewrite Eerr, En.
        change (follow coordinator_edges (u "response_aggregator"))
          with (Goto N_response_aggregator). cbv beta iota.
        now rewrite run_terminal.
      * assert (Hd : exists d, name = division_value d).
        { unfold routed_names in Hnames. rewrite En in Hnames.
          now inversion Hnames. }
        destruct Hd as [d ->].
        destruct (run_divisions d Hnames (pending_after_first d st1 En))
          as [trace [Hlen Hrun]].
        exists ((N_chief_coordinator, st1) :: trace). subst routed.
        split; [simpl; lia |]. intros fuel Hf. simpl in Hf.
        destruct fuel as [|fuel]; try lia.
        rewrite run_step. fold st1. unfold next_of at 1, route_from_coordinator.
        rewrite Eerr, En, follow_supervisor_from_coordinator.
        rewrite Hrun by lia. reflexivity.
  - intros n st. apply completed_grows.
  - intros d st. apply supervisor_completes.
  - intros d0 d st Hnext. unfold next_of, route_from_division in Hnext.
    destruct (pending_of st) as [|name rest] eqn:Ep.
    + discriminate Hnext.
    + unfold follow in Hnext.
      destruct (dict_get division_edges (supervisor_name name)) as [n|] eqn:Eg;
        [|discriminate Hnext].
      injection Hnext as ->.
      apply named_edges_key in Eg as [Ename _].
      apply supervisor_name_inj in Ename. subst name.
      assert (Hp : In (division_value d) (pending_of st)) by (rewrite Ep; now left).
      unfold pending_of in Hp. apply filter_In in Hp as [_ Hnot].
      apply negb_true_iff in Hnot. now apply py_in_false.
Qed.

(** ** The coordinator without a message *)

(** C5. When the coordinator runs on a state without messages it stores the
    error [No messages to process]; the graph then runs the error handler and
    ends, no division node in between; [completed_divisions] and
    [division_results] are as they were (so an empty list stays empty); and
    the only message of the final state is the assistant message made of the
    fixed error text followed by the stored error. *)
Theorem coordinator_without_messages `{RT : PyRuntime}
    (state : State) (fuel : nat) :
  messages state = [] ->
  let after := exec N_chief_coordinator state in
  error after = ErrText (u "No messages to process") /\
  exists final,
    run (S (S fuel)) N_chief_coordinator state
      = ([(N_chief_coordinator, after); (N_error_handler, final)], Done) /\
    completed_divisions final = completed_divisions state /\
    division_results final = division_results state /\
    (completed_divisions state = [] -> completed_divisions final = []) /\
    map (fun m => (msg_role m, msg_content m)) (messages final)
      = [(AI, error_message after)] /\
    error_message after
      = u "An error occurred while processing your request: No messages to process".
Proof.
  intros Hm after.
  assert (Herr : error after = ErrText (u "No messages to process")).
  { unfold after. rewrite exec_error, Hm. reflexivity. }
  assert (Hmsgs : messages after = []).
  { unfold after, exec, node_fn, chief_coordinator. rewrite Hm.
    cbn [messages with_messages with_error]. rewrite Hm. reflexivity. }
  split; [exact Herr |].
  exists (exec N_error_handler after).
  assert (Hc : completed_divisions (exec N_error_handler after)
               = completed_divisions state).
  { unfold after. now rewrite !exec_completed. }
  repeat split.
  - rewrite run_step. fold after. unfold next_of at 1, route_from_coordinator.
    rewrite Herr.
    change (follow coordinator_edges
              (if error_set (ErrText (u "No messages to process"))
               then u "error_handler"
               else match next_divisions after with
                    | [] => u "response_aggregator"
                    | first_division :: _ => supervisor_name first_division
                    end))
      with (Goto N_error_handler).
    cbv beta iota. now rewrite run_terminal.
  - exact Hc.
  - unfold after. now rewrite !exec_results.
  - intros E. now rewrite Hc.
  - unfold exec at 1, node_fn, error_handler. cbn [messages with_messages with_current_agent].
    rewrite Hmsgs. reflexivity.
  - unfold error_message. rewrite Herr. reflexivity.
Qed.

Lemma coordinator_without_messages_witness :
  let state := create_initial_state (u "user") (u "brand") None in
  messages state = [] /\
  error (@exec ascii_runtime N_chief_coordinator state)
    = ErrText (u "No messages to process").
Proof.
  split.
  - reflexivity.
  - exact (proj1 (@coordinator_without_messages ascii_runtime
                    (create_initial_state (u "user") (u "brand") None) 0
                    eq_refl)).
Defined.

(** ** The orchestration graph: invariants *)

Definition pystr_eq_dec : forall a b : pystr, {a = b} + {a <> b} :=
  list_eq_dec N.eq_dec.

Section Invariants.
Context `{RT : PyRuntime}.

(** What holds of a state once the nodes [nodes] have run, [completed0]
    being [completed_divisions] before the first of them. *)
Definition visited_ok (completed0 : list pystr) (nodes : list Node)
    (s : State) : Prop :=
  NoDup (completed_divisions s) /\
  dict_wf (division_results s) /\
  (forall name, In name (completed_divisions s) ->
     In name completed0 \/ In name (dict_keys (division_results s))) /\
  (forall d, In (N_supervisor d) nodes ->
     In (division_value d) (completed_divisions s) /\
     In (division_value d) (dict_keys (division_results s))).

Lemma NoDup_snoc {A : Type} (l : list A) (x : A) :
  NoDup l -> ~ In x l -> NoDup (l ++ [x]).
Proof.
  induction l as [|a l IH]; simpl; intros Hnd Hx.
  - constructor; [intros [] | constructor].
  - inversion Hnd as [|? ? Ha Hl]; subst. constructor.
    + intros Hin. apply in_app_or in Hin as [Hin | [E | []]].
      * contradiction.
      * apply Hx. now left.
    + apply IH; [assumption |]. intros Hin. apply Hx. now right.
Qed.

Lemma dict_set_keys {V : Type} (d : dict pystr V) (k : pystr) (v : V) :
  dict_keys (dict_set d k v) =
  if py_in k (dict_keys d) then dict_keys d else dict_keys d ++ [k].
Proof.
  destruct (py_in k (dict_keys d)) eqn:E.
  - apply dict_set_keys_present. now apply py_in_In.
  - apply py_in_false in E. rewrite dict_set_fresh by assumption.
    unfold dict_keys. now rewrite map_app.
Qed.

Lemma dict_set_wf {V : Type} (d : dict pystr V) (k : pystr) (v : V) :
  dict_wf d -> dict_wf (dict_set d k v).
Proof.
  unfold dict_wf. rewrite dict_set_keys.
  destruct (py_in k (dict_keys d)) eqn:E; [auto |].
  intros Hnd. apply NoDup_snoc; [assumption |]. now apply py_in_false.
Qed.

Lemma dict_set_keys_incl {V : Type} (d : dict pystr V) (k : pystr) (v : V)
    (x : pystr) :
  In x (dict_keys d) -> In x (dict_keys (dict_set d k v)).
Proof.
  rewrite dict_set_keys. destruct (py_in k (dict_keys d)); [auto |].
  intros Hin. apply in_or_app. now left.
Qed.

Lemma dict_set_key_in {V : Type} (d : dict pystr V) (k : pystr) (v : V) :
  In k (dict_keys (dict_set d k v)).
Proof.
  rewrite dict_set_keys. destruct (py_in k (dict_keys d)) eqn:E.
  - now apply py_in_In.
  - apply in_or_app. right. now left.
Qed.

Lemma results_keys_grow (n : Node) (s : State) (x : pystr) :
  In x (dict_keys (division_results s)) ->
  In x (dict_keys (division_results (exec n s))).
Proof.
  rewrite exec_results. destruct n; auto. apply dict_set_keys_incl.
Qed.

Lemma completed_keeps (n : Node) (s : State) (x : pystr) :
  In x (completed_divisions s) -> In x (completed_divisions (exec n s)).
Proof.
  destruct (completed_grows n s) as [added ->]. intros Hin.
  apply in_or_app. now left.
Qed.

(** Every node step keeps the invariant and, for a division node, adds its
    division to the visited ones. *)
Lemma visited_ok_exec (completed0 : list pystr) (nodes : list Node)
    (n : Node) (s : State) :
  visited_ok completed0 nodes s ->
  visited_ok completed0 (nodes ++ [n]) (exec n s).
Proof.
  intros [Hnd [Hwf [Hrec Hvis]]]. unfold visited_ok.
  split; [|split; [|split; [|intros d' Hd'; split]]].
  - rewrite exec_completed. destruct n; try assumption.
    destruct (py_in (division_value d) (completed_divisions s)) eqn:E;
      [assumption |].
    apply NoDup_snoc; [assumption | now apply py_in_false].
  - rewrite exec_results. destruct n; try assumption. now apply dict_set_wf.
  - intros name Hin. rewrite exec_completed in Hin.
    destruct n;
      try (destruct (Hrec name Hin) as [H0 | Hk];
           [now left | right; now apply results_keys_grow]).
    destruct (py_in (division_value d) (completed_divisions s)).
    + destruct (Hrec name Hin) as [H0 | Hk];
        [now left | right; now apply results_keys_grow].
    + apply in_app_or in Hin as [Hin | [<- | []]].
      * destruct (Hrec name Hin) as [H0 | Hk];
          [now left | right; now apply results_keys_grow].
      * right. rewrite exec_results. apply dict_set_key_in.
  - apply in_app_or in Hd' as [Hin | [-> | []]].
    + apply completed_keeps. now apply Hvis.
    + apply supervisor_completes.
  - apply in_app_or in Hd' as [Hin | [-> | []]].
    + apply results_keys_grow. now apply Hvis.
    + rewrite exec_results. apply dict_set_key_in.
Qed.

Lemma run_trace (fuel : nat) (n : Node) (s : State) :
  fst (run (S fuel) n s) =
  (n, exec n s) ::
  match next_of n (exec n s) with
  | Goto n' => fst (run fuel n' (exec n s))
  | _ => []
  end.
Proof.
  rewrite run_step. destruct (next_of n (exec n s)); try reflexivity.
  destruct (run fuel n0 (exec n s)). reflexivity.
Qed.

(** The invariant holds after every node of a run. *)
Lemma visited_ok_run (completed0 : list pystr) (fuel : nat) :
  forall (nodes : list Node) (n : Node) (s : State),
    visited_ok completed0 nodes s ->
    forall pre n' s' post,
      fst (run fuel n s) = pre ++ (n', s') :: post ->
      visited_ok completed0 (nodes ++ map fst pre ++ [n']) s'.
Proof.
  induction fuel as [|fuel IH]; intros nodes n s Hok pre n' s' post Ht.
  - destruct pre; discriminate Ht.
  - rewrite run_trace in Ht. destruct pre as [|p pre]; simpl in Ht.
    + injection Ht as <- <- _. simpl. now apply visited_ok_exec.
    + injection Ht as <- Ht.
      destruct (next_of n (exec n s)) as [n1 | |name];
        try (destruct pre; discriminate Ht).
      pose proof (IH (nodes ++ [n]) n1 (exec n s)
                    (visited_ok_exec n Hok) pre n' s' post Ht) as Hfin.
      cbn [map fst]. now rewrite <- app_assoc in Hfin.
Qed.

End Invariants.

(** C7. In a run that starts from a state whose [completed_divisions] holds
    no name twice (and whose results dict is a dict), after every node step:
    [completed_divisions] holds no name twice; every division whose node has
    run so far is in [completed_divisions] and has exactly one entry in
    [division_results]; and every name that joined [completed_divisions]
    during the run already has its entry in [division_results]. *)
Theorem graph_keeps_invariants `{RT : PyRuntime} (state : State) (fuel : nat) :
  NoDup (completed_divisions state) ->
  dict_wf (division_results state) ->
  forall pre n s post,
    fst (run fuel N_chief_coordinator state) = pre ++ (n, s) :: post ->
    NoDup (completed_divisions s) /\
    (forall d, In (N_supervisor d) (map fst pre ++ [n]) ->
       In (division_value d) (completed_divisions s) /\
       count_occ pystr_eq_dec (dict_keys (division_results s))
         (division_value d) = 1) /\
    (forall name, In name (completed_divisions s) ->
       In name (completed_divisions state) \/
       count_occ pystr_eq_dec (dict_keys (division_results s)) name = 1).
Proof.
  intros Hnd Hwf pre n s post Ht.
  assert (Hstart : visited_ok (completed_divisions state) [] state).
  { unfold visited_ok. split; [|split; [|split]]; try assumption.
    - intros name Hin. now left.
    - intros d [].  }
  destruct (@visited_ok_run _ (completed_divisions state) fuel []
              N_chief_coordinator state Hstart pre n s post Ht)
    as [Hnd' [Hwf' [Hrec Hvis]]].
  assert (Hone : forall name, In name (dict_keys (division_results s)) ->
                   count_occ pystr_eq_dec (dict_keys (division_results s)) name = 1).
  { apply NoDup_count_occ'. exact Hwf'. }
  repeat split.
  - exact Hnd'.
  - now apply Hvis.
  - apply Hone. now apply Hvis.
  - intros name Hin. destruct (Hrec name Hin) as [H0 | Hk]; [now left |].
    right. now apply Hone.
Qed.

Lemma graph_keeps_invariants_witness :
  let state := with_messages (create_initial_state (u "user") (u "brand") None)
                 [HumanMessage (u "budget")] in
  let trace := fst (@run ascii_runtime 5 N_chief_coordinator state) in
  NoDup (completed_divisions state) /\
  dict_wf (division_results state) /\
  trace = removelast trace ++ [last trace (N_chief_coordinator, state)] /\
  NoDup (completed_divisions (snd (last trace (N_chief_coordinator, state)))).
Proof.
  split; [constructor | split; [constructor | split; [vm_compute; reflexivity |]]].
  apply (@graph_keeps_invariants ascii_runtime
           (with_messages (create_initial_state (u "user") (u "brand") None)
              [HumanMessage (u "budget")])
           5 (NoDup_nil _) (NoDup_nil _)
           (removelast
              (fst (@run ascii_runtime 5 N_chief_coordinator
                      (with_messages
                         (create_initial_state (u "user") (u "brand") None)
                         [HumanMessage (u "budget")]))))
           (fst (last
              (fst (@run ascii_runtime 5 N_chief_coordinator
                      (with_messages
                         (create_initial_state (u "user") (u "brand") None)
                         [HumanMessage (u "budget")])))
              (N_chief_coordinator,
                with_messages
                  (create_initial_state (u "user") (u "brand") None)
                  [HumanMessage (u "budget")])))
           _ []).
  vm_compute. reflexivity.
Defined.

(** ** The messages channel *)

Module ReducerFacts.
Import Reducer.

(** Messages that sit in the channel have an id each, all different. *)
Definition channel_ok (ms : list Message) : Prop :=
  Forall (fun m => msg_id m <> None) ms /\ NoDup (map msg_id ms).

Lemma assign_ids_kept (next : N) (ms : list Message) :
  Forall (fun m => msg_id m <> None) ms -> assign_ids next ms = (ms, next).
Proof.
  induction ms as [|m ms IH]; simpl; intros Hall.
  - reflexivity.
  - inversion Hall as [|? ? Hm Hms]; subst.
    destruct (msg_id m); [|contradiction]. now rewrite IH.
Qed.

Lemma replace_last_unknown (m : Message) (l : list Message) :
  (forall x, In x l -> same_id x m = false) -> replace_last m l = None.
Proof.
  induction l as [|x l IH]; simpl; intros Hno.
  - reflexivity.
  - rewrite IH by auto. now rewrite Hno by auto.
Qed.

Lemma same_id_eq (x m : Message) :
  same_id x m = true <-> msg_id x = msg_id m /\ msg_id m <> None.
Proof.
  unfold same_id. destruct (msg_id x) as [i|], (msg_id m) as [j|]; simpl.
  - rewrite N.eqb_eq. split.
    + intros ->. split; [reflexivity | discriminate].
    + intros [E _]. now injection E.
  - split; [discriminate | intros [E _]; discriminate E].
  - split; [discriminate | intros [E _]; discriminate E].
  - split; [discriminate | intros [_ E]; contradiction].
Qed.

(** Sending again a message of the channel leaves the channel as it is. *)
Lemma replace_last_self (m : Message) (l : list Message) :
  channel_ok l -> In m l -> replace_last m l = Some l.
Proof.
  unfold channel_ok. induction l as [|x l IH]; simpl; intros [Hall Hnd] Hin.
  - contradiction.
  - inversion Hall as [|? ? Hx Hl]; subst.
    inversion Hnd as [|? ? Hni Hnd']; subst.
    destruct Hin as [-> | Hin].
    + rewrite replace_last_unknown.
      * assert (Hs : same_id m m = true) by (apply same_id_eq; auto).
        now rewrite Hs.
      * intros y Hy. destruct (same_id y m) eqn:Es; [|reflexivity].
        apply same_id_eq in Es as [E _]. exfalso. apply Hni. rewrite <- E.
        now apply in_map.
    + now rewrite IH by auto.
Qed.

Lemma merge_known (l sub : list Message) :
  channel_ok l -> incl sub l -> fold_left merge_one sub l = l.
Proof.
  intros Hok. induction sub as [|m sub IH]; simpl; intros Hincl.
  - reflexivity.
  - unfold merge_one at 2. rewrite replace_last_self.
    + apply IH. intros y Hy. apply Hincl. now right.
    + exact Hok.
    + apply Hincl. now left.
Qed.

(** What the coordinator and the division nodes do to the channel when they
    return the messages they were given. *)
Lemma add_messages_resend (ms : list Message) :
  channel_ok ms -> add_messages ms ms = ms.
Proof.
  intros Hok. unfold add_messages.
  rewrite (assign_ids_kept _ (proj1 Hok)), (assign_ids_kept _ (proj1 Hok)).
  apply merge_known; [exact Hok | apply incl_refl].
Qed.

Lemma max_id_bound (ms : list Message) (x : Message) (i : N) :
  In x ms -> msg_id x = Some i -> (i <= max_id ms)%N.
Proof.
  induction ms as [|m ms IH]; simpl; intros Hin Hi.
  - contradiction.
  - destruct Hin as [-> | Hin].
    + rewrite Hi. lia.
    + specialize (IH Hin Hi). destruct (msg_id m); lia.
Qed.

Lemma max_id_new (ms : list Message) (m : Message) :
  msg_id m = None -> max_id (ms ++ [m]) = max_id ms.
Proof.
  intros Hm. induction ms as [|x ms IH]; simpl.
  - now rewrite Hm.
  - rewrite IH. reflexivity.
Qed.

(** What the aggregator and the error handler do to the channel: the new
    message gets an id of its own and goes last. *)
Lemma add_messages_new (ms : list Message) (role : Role) (content : pystr) :
  Forall (fun m => msg_id m <> None) ms ->
  add_messages ms
    [{| msg_id := None; msg_role := role; msg_content := content |}]
  = ms ++ [{| msg_id := Some (max_id ms + 1)%N; msg_role := role;
              msg_content := content |}].
Proof.
  intros Hall. unfold add_messages.
  rewrite max_id_new by reflexivity. rewrite (assign_ids_kept _ Hall).
  cbn [assign_ids msg_id msg_role msg_content fold_left].
  unfold merge_one. rewrite replace_last_unknown; [reflexivity |].
  intros x Hx. destruct (same_id x _) eqn:Es; [|reflexivity].
  apply same_id_eq in Es as [E _]. cbn [msg_id] in E.
  pose proof (max_id_bound ms x Hx E). lia.
Qed.

End ReducerFacts.

(** X20. On a channel whose messages carry distinct ids, the coordinator
    and the division nodes leave the messages as they are, although they
    return them again; the aggregator and the error handler add exactly one
    assistant message, their answer, after them. *)
Lemma exec_messages `{RT : PyRuntime} (n : Node) (state : State) :
  ReducerFacts.channel_ok (messages state) ->
  match n with
  | N_chief_coordinator | N_supervisor _ =>
      messages (exec n state) = messages state
  | N_response_aggregator =>
      map (fun m => (msg_role m, msg_content m)) (messages (exec n state))
      = map (fun m => (msg_role m, msg_content m)) (messages state)
          ++ [(AI, aggregated_response state)]
  | N_error_handler =>
      map (fun m => (msg_role m, msg_content m)) (messages (exec n state))
      = map (fun m => (msg_role m, msg_content m)) (messages state)
          ++ [(AI, error_message state)]
  end.
Proof.
  intros Hok. destruct n.
  - unfold exec, node_fn, chief_coordinator.
    destruct (messages state) as [|m0 ms] eqn:Em.
    + cbn [messages with_messages with_error]. now rewrite Em.
    + cbn [messages with_messages]. rewrite <- Em in *.
      now apply ReducerFacts.add_messages_resend.
  - unfold exec, node_fn, division_supervisor. cbn [messages with_messages].
    now apply ReducerFacts.add_messages_resend.
  - unfold exec, node_fn, response_aggregator.
    cbn [messages with_messages with_current_agent]. unfold AIMessage.
    rewrite ReducerFacts.add_messages_new by apply Hok.
    now rewrite map_app.
  - unfold exec, node_fn, error_handler.
    cbn [messages with_messages with_current_agent]. unfold AIMessage.
    rewrite ReducerFacts.add_messages_new by apply Hok.
    now rewrite map_app.
Qed.

(** ** The aggregator *)

(** What the aggregator node does with [N >= 1] results: one part per entry
    of [division_results], in the order of the dict, each made of the title
    of the division and its summary; the parts joined by a blank line and
    nothing else; the text appended to the messages as an assistant
    message. *)
Lemma response_aggregator_sections `{RT : PyRuntime} (state : State)
    (e0 : pystr * Result) (rest : dict pystr Result) :
  division_results state = e0 :: rest ->
  aggregated_response state
    = join [newline; newline] (map response_part (e0 :: rest)) /\
  List.length (map response_part (e0 :: rest))
    = List.length (division_results state) /\
  (forall i name result,
     nth_error (division_results state) i = Some (name, result) ->
     nth_error (map response_part (e0 :: rest)) i
       = Some (u "**" ++ division_title name ++ u "**: "
                 ++ result_summary result)) /\
  messages (response_aggregator state) = [AIMessage (aggregated_response state)].
Proof.
  intros Hr. split; [|split; [|split]].
  - unfold aggregated_response, response_parts. now rewrite Hr.
  - now rewrite length_map, Hr.
  - intros i name result Hi. rewrite Hr in Hi.
    rewrite nth_error_map, Hi. reflexivity.
  - reflexivity.
Qed.

(** The state on which the two aggregations of the repository are compared:
    two divisions have reported. *)
Definition two_results_state : State :=
  let s0 := with_messages (create_initial_state (u "user") (u "brand") None)
              [{| msg_id := Some 1%N; msg_role := Human;
                  msg_content := u "plan the promotion" |}] in
  @exec ascii_runtime (N_supervisor MARKET_INTELLIGENCE)
    (@exec ascii_runtime (N_supervisor STRATEGIC_PLANNING) s0).

(** C3. With two division results the aggregator node of the graph answers
    with the two titled sections joined by a blank line and puts no banner in
    front, while [ChiefCoordinator.aggregate_responses] on the same state
    starts with the multi-division banner. *)
Theorem response_aggregator_no_banner :
  List.length (division_results two_results_state) = 2 /\
  @aggregated_response ascii_runtime two_results_state
    = u "**Strategic Planning**: Strategic Planning division has processed the request."
        ++ [newline; newline]
        ++ u "**Market Intelligence**: Market Intelligence division has processed the request." /\
  is_prefix multi_division_banner
    (@aggregated_response ascii_runtime two_results_state) = false /\
  is_prefix multi_division_banner
    (@aggregate_responses_text ascii_runtime two_results_state) = true /\
  map (fun m => (msg_role m, msg_content m))
    (messages (@exec ascii_runtime N_response_aggregator two_results_state))
  = [(Human, u "plan the promotion");
     (AI, @aggregated_response ascii_runtime two_results_state)].
Proof.
  vm_compute. repeat split; reflexivity.
Qed.

(** ** The sections of a run follow the routing order *)

Lemma division_value_inj (a b : Division) :
  division_value a = division_value b -> a = b.
Proof.
  destruct a, b; intros E; try reflexivity; vm_compute in E; discriminate E.
Qed.

Lemma filter_none {A : Type} (f : A -> bool) (l : list A) :
  (forall x, In x l -> f x = false) -> filter f l = [].
Proof.
  induction l as [|a l IH]; simpl; intros Hf.
  - reflexivity.
  - rewrite Hf by now left. apply IH. auto.
Qed.

Lemma filter_all {A : Type} (f : A -> bool) (l : list A) :
  (forall x, In x l -> f x = true) -> filter f l = l.
Proof.
  induction l as [|a l IH]; simpl; intros Hf.
  - reflexivity.
  - rewrite Hf by now left. f_equal. apply IH. auto.
Qed.

Lemma NoDup_app_disjoint {A : Type} (l1 l2 : list A) (x : A) :
  NoDup (l1 ++ l2) -> In x l1 -> ~ In x l2.
Proof.
  induction l1 as [|a l1 IH]; simpl; intros Hnd Hin.
  - contradiction.
  - inversion Hnd as [|? ? Hni Hnd']; subst. destruct Hin as [-> | Hin].
    + intros Hx. apply Hni. apply in_or_app. now right.
    + now apply IH.
Qed.

Lemma NoDup_map_inj {A B : Type} (f : A -> B) (l : list A) :
  (forall a b, f a = f b -> a = b) -> NoDup l -> NoDup (map f l).
Proof.
  intros Hinj. induction l as [|a l IH]; simpl; intros Hnd.
  - constructor.
  - inversion Hnd as [|? ? Hni Hnd']; subst. constructor; [|auto].
    intros Hin. apply in_map_iff in Hin as [b [E Hb]].
    apply Hinj in E. subst b. contradiction.
Qed.

Section RoutingOrder.
Context `{RT : PyRuntime}.

(** The section the aggregator writes for a division that reported through
    [division_supervisor] *)
Definition section_of (division_name : pystr) : pystr :=
  u "**" ++ division_title division_name ++ u "**: "
    ++ division_title division_name
    ++ u " division has processed the request.".

(** The divisions [done] have reported, in this order, and nothing else
    is in the state. *)
Definition walked (done : list pystr) (s : State) : Prop :=
  completed_divisions s = done /\
  division_results s = map (fun name => (name, division_result name)) done.

Lemma walked_keys (done : list pystr) (s : State) :
  walked done s -> dict_keys (division_results s) = done.
Proof.
  intros [_ Hr]. unfold dict_keys. rewrite Hr, map_map. simpl. apply map_id.
Qed.

Lemma pending_of_split (s : State) (done todo : list pystr) :
  completed_divisions s = done ->
  next_divisions s = done ++ todo ->
  NoDup (done ++ todo) ->
  pending_of s = todo.
Proof.
  intros Hc Hn Hnd. unfold pending_of. rewrite Hc, Hn, filter_app.
  rewrite filter_none, filter_all.
  - reflexivity.
  - intros x Hx. apply negb_true_iff. apply py_in_false.
    intros Hd. exact (@NoDup_app_disjoint _ done todo x Hnd Hd Hx).
  - intros x Hx. apply negb_false_iff. now apply py_in_In.
Qed.

Lemma walked_step (d : Division) (s : State) (done todo : list pystr) :
  walked done s ->
  NoDup (done ++ division_value d :: todo) ->
  walked (done ++ [division_value d]) (exec (N_supervisor d) s).
Proof.
  intros Hw Hnd. pose proof (walked_keys Hw) as Hk. destruct Hw as [Hc Hr].
  assert (Hfresh : ~ In (division_value d) done).
  { intros Hin.
    apply (@NoDup_app_disjoint _ done (division_value d :: todo) _ Hnd Hin).
    now left. }
  split.
  - rewrite exec_completed, Hc.
    apply py_in_false in Hfresh. now rewrite Hfresh.
  - rewrite exec_results, dict_set_fresh by now rewrite Hk.
    now rewrite Hr, map_app.
Qed.

(** From a division node, with the divisions before it done and the
    divisions [d :: ds] still to come, the graph runs [d :: ds] in this order
    and then the aggregator, which sees the results in routing order. *)
Lemma run_in_order (ds : list Division) :
  forall (d : Division) (s : State) (done : list pystr),
    walked done s ->
    next_divisions s = done ++ map division_value (d :: ds) ->
    NoDup (next_divisions s) ->
    exists pre before,
      (forall fuel, List.length ds + 2 <= fuel ->
         run fuel (N_supervisor d) s
         = (pre ++ [(N_response_aggregator,
                     exec N_response_aggregator before)], Done)) /\
      map fst pre = map N_supervisor (d :: ds) /\
      walked (next_divisions s) before.
Proof.
  induction ds as [|d2 ds IH]; intros d s done Hw Hn Hnd.
  - simpl in Hn. rewrite Hn in Hnd.
    pose proof (@walked_step d s done [] Hw Hnd) as Hw'.
    set (s' := exec (N_supervisor d) s) in *.
    assert (Hp : pending_of s' = []).
    { apply pending_of_split with (done := done ++ [division_value d]).
      - apply Hw'.
      - unfold s'. now rewrite exec_next_divisions, Hn, app_nil_r.
      - now rewrite app_nil_r. }
    exists [(N_supervisor d, s')], s'. repeat split.
    + intros fuel Hf. destruct fuel as [|[|fuel]]; try (simpl in Hf; lia).
      rewrite run_step. fold s'. unfold next_of at 1, route_from_division.
      rewrite Hp.
      change (follow division_edges (u "response_aggregator"))
        with (Goto N_response_aggregator).
      cbv beta iota. now rewrite run_terminal.
    + rewrite Hn. apply Hw'.
    + rewrite Hn. apply Hw'.
  - cbn [map] in Hn. rewrite Hn in Hnd.
    pose proof (@walked_step d s done _ Hw Hnd) as Hw'.
    set (s' := exec (N_supervisor d) s) in *.
    assert (Hn' : next_divisions s'
                  = (done ++ [division_value d])
                      ++ map division_value (d2 :: ds)).
    { unfold s'. rewrite exec_next_divisions, Hn, <- app_assoc. reflexivity. }
    assert (Hnd' : NoDup (next_divisions s')).
    { rewrite Hn', <- app_assoc. exact Hnd. }
    assert (Hp : pending_of s' = map division_value (d2 :: ds)).
    { apply pending_of_split with (done := done ++ [division_value d]).
      - apply Hw'.
      - exact Hn'.
      - rewrite <- Hn'. exact Hnd'. }
    destruct (IH d2 s' (done ++ [division_value d]) Hw' Hn' Hnd')
      as [pre [before [Hrun [Hpre Hbefore]]]].
    exists ((N_supervisor d, s') :: pre), before. repeat split.
    + intros fuel Hf. destruct fuel as [|fuel]; try (simpl in Hf; lia).
      rewrite run_step. fold s'. unfold next_of at 1, route_from_division.
      rewrite Hp. cbn [map]. rewrite follow_supervisor.
      rewrite Hrun by (simpl in Hf; lia). reflexivity.
    + cbn [map fst]. now rewrite Hpre.
    + replace (next_divisions s) with (next_divisions s'); [apply Hbefore |].
      unfold s'. now rewrite exec_next_divisions.
    + replace (next_divisions s) with (next_divisions s'); [apply Hbefore |].
      unfold s'. now rewrite exec_next_divisions.
Qed.

Lemma determine_divisions_NoDup (query : pystr) (task : TaskType) :
  NoDup (determine_divisions query task).
Proof.
  unfold determine_divisions.
  destruct (find (fun cfg => re_search (pattern cfg) (str_lower query))
              MULTI_DIVISION_PATTERNS) as [cfg|] eqn:Ef.
  - apply find_some in Ef as [Hin _].
    pose proof MULTI_DIVISION_PATTERNS_nodup as Hn.
    rewrite forallb_forall in Hn. apply nodupb_NoDup. auto.
  - destruct (dict_get TASK_TO_DIVISION task); repeat constructor. intros [].
Qed.

Lemma response_part_of_division (name : pystr) :
  response_part (name, division_result name) = section_of name.
Proof. reflexivity. Qed.

(** A request with a message, no error, and nothing done yet, routed to at
    least one division: the graph runs the coordinator, the routed divisions
    in routing order, and the aggregator, whose answer is the sections of
    the routed divisions in that order, joined by blank lines. *)
Lemma sections_follow_routing (state : State) (m0 : Message)
    (ms : list Message) (d : Division) (ds : list Division) :
  let query := msg_content (last ms m0) in
  messages state = m0 :: ms ->
  error_set (error state) = false ->
  completed_divisions state = [] ->
  division_results state = [] ->
  determine_divisions query (classify_task query) = d :: ds ->
  exists pre before,
    (forall fuel, List.length (d :: ds) + 2 <= fuel ->
       run fuel N_chief_coordinator state
       = (pre ++ [(N_response_aggregator,
                   exec N_response_aggregator before)], Done)) /\
    map fst pre = N_chief_coordinator :: map N_supervisor (d :: ds) /\
    dict_keys (division_results before) = map division_value (d :: ds) /\
    aggregated_response before
    = join [newline; newline]
        (map (fun dv => section_of (division_value dv)) (d :: ds)) /\
    completed_divisions before = map division_value (d :: ds).
Proof.
  intros query Hm Herr Hc Hr Hd.
  set (s1 := exec N_chief_coordinator state).
  assert (Hn1 : next_divisions s1 = map division_value (d :: ds)).
  { unfold s1. rewrite exec_next_divisions, Hm. cbv zeta. fold query.
    now rewrite Hd. }
  assert (He1 : error_set (error s1) = false).
  { unfold s1. now rewrite exec_error, Hm. }
  assert (Hw1 : walked [] s1).
  { split; unfold s1.
    - now rewrite exec_completed.
    - now rewrite exec_results. }
  assert (Hnd1 : NoDup (next_divisions s1)).
  { rewrite Hn1, <- Hd.
    apply NoDup_map_inj; [exact division_value_inj |].
    apply determine_divisions_NoDup. }
  destruct (@run_in_order ds d s1 [] Hw1 Hn1 Hnd1)
    as [pre [before [Hrun [Hpre Hbefore]]]].
  exists ((N_chief_coordinator, s1) :: pre), before. repeat split.
  - intros fuel Hf. destruct fuel as [|fuel]; try (simpl in Hf; lia).
    rewrite run_step. fold s1. unfold next_of at 1, route_from_coordinator.
    rewrite He1, Hn1. cbn [map]. rewrite follow_supervisor_from_coordinator.
    rewrite Hrun by (simpl in Hf; lia). reflexivity.
  - cbn [map fst]. now rewrite Hpre.
  - rewrite (walked_keys Hbefore). exact Hn1.
  - destruct Hbefore as [_ Hres]. unfold aggregated_response, response_parts.
    rewrite Hres, Hn1. cbn [map]. rewrite !map_map. reflexivity.
  - destruct Hbefore as [Hcb _]. now rewrite Hcb.
Qed.

End RoutingOrder.

(** ** Errors and the division steps *)




Section ErrorPath.
Context `{RT : PyRuntime}.





End ErrorPath.


(* ===================================================================== *)
(** * Further code of the repository *)
(* ===================================================================== *)

(** ** routing.py: [get_agent_for_task] *)

(** [agent_mappings] *)
Definition agent_mappings : dict Division (dict TaskType pystr) :=
  [ (STRATEGIC_PLANNING,
      [ (PROMOTION_PLANNING, u "promotion_planner");
        (TIMELINE_MANAGEMENT, u "timeline_manager");
        (BUDGET_ALLOCATION, u "budget_allocator") ]);
    (MARKET_INTELLIGENCE,
      [ (NEWS_SCOUTING, u "industry_news_scout");
        (COMPETITOR_ANALYSIS, u "competitor_watcher");
        (INGREDIENT_TRENDS, u "ingredient_trend_analyst");
        (SEASONAL_ANALYSIS, u "seasonal_pattern_analyst") ]);
    (CHANNEL_MANAGEMENT,
      [ (CHANNEL_STATUS, u "cross_channel_syncer");
        (PRICE_SYNC, u "cross_channel_syncer");
        (INVENTORY_CHECK, u "cross_channel_syncer");
        (CROSS_CHANNEL, u "cross_channel_syncer") ]);
    (ANALYTICS,
      [ (SENTIMENT_ANALYSIS, u "review_sentiment_analyst");
        (PROMOTION_REVIEW, u "promotion_reviewer");
        (BUNDLE_ANALYSIS, u "bundle_analyzer");
        (MARGIN_CALCULATION, u "margin_calculator");
        (STOCKOUT_PREDICTION, u "stockout_predictor");
        (INFLUENCER_ROI, u "influencer_roi_analyst");
        (ATTRIBUTION, u "attribution_analyst") ]);
    (OPERATIONS,
      [ (INVENTORY_MONITORING, u "inventory_checker");
        (PRICE_MONITORING, u "price_monitor");
        (CHECKLIST_VALIDATION, u "checklist_manager") ]) ].

Definition get_agent_for_task (division : Division) (task_type : TaskType)
    : pystr :=
  let division_agents :=
    match dict_get agent_mappings division with
    | Some m => m
    | None => []
    end in
  match dict_get division_agents task_type with
  | Some agent => agent
  | None => u "supervisor"
  end.

(** ** agents/divisions: the supervisors *)

(** A division supervisor as its class and its factory declare it:
    [sup_rules] is the [if]/[elif] chain of [route_to_agent], each rule a
    keyword list and the agent it names; [sup_agents] are the keys of the
    [agents] dict the factory builds. *)
Record Supervisor := {
  sup_name : pystr;
  sup_division : Division;
  sup_rules : list (list pystr * pystr);
  sup_default : pystr;
  sup_agents : list pystr
}.

Definition StrategicPlanningSupervisor : Supervisor :=
  {| sup_name := u "strategic_planning_supervisor";
     sup_division := STRATEGIC_PLANNING;
     sup_rules :=
       [ (map u ["calendar"; "plan"; "campaign"; "promotion"; "캘린더";
                 "계획"; "캠페인"], u "promotion_planner");
         (map u ["deadline"; "timeline"; "schedule"; "milestone"; "마감";
                 "일정"], u "timeline_manager");
         (map u ["budget"; "cost"; "roi"; "spend"; "예산"; "비용"],
           u "budget_allocator") ];
     sup_default := u "promotion_planner";
     sup_agents :=
       map u ["promotion_planner"; "timeline_manager"; "budget_allocator"] |}.

Definition MarketIntelligenceSupervisor : Supervisor :=
  {| sup_name := u "market_intelligence_supervisor";
     sup_division := MARKET_INTELLIGENCE;
     sup_rules :=
       [ (map u ["news"; "trend"; "buzz"; "뉴스"; "트렌드"; "이슈"],
           u "industry_news_scout");
         (map u ["competitor"; "innisfree"; "laneige"; "경쟁사"; "경쟁"],
           u "competitor_watcher");
         (map u ["ingredient"; "retinol"; "centella"; "성분"; "원료"],
           u "ingredient_trend_analyst");
         (map u ["season"; "demand"; "holiday"; "event"; "계절"; "수요";
                 "시즌"], u "seasonal_pattern_analyst") ];
     sup_default := u "industry_news_scout";
     sup_agents :=
       map u ["industry_news_scout"; "competitor_watcher";
              "ingredient_trend_analyst"; "seasonal_pattern_analyst"] |}.

Definition ChannelManagementSupervisor : Supervisor :=
  {| sup_name := u "channel_management_supervisor";
     sup_division := CHANNEL_MANAGEMENT;
     sup_rules :=
       [ (map u ["oliveyoung"; "올리브영"; "올영"], u "oliveyoung_agent");
         (map u ["coupang"; "쿠팡"; "rocket"; "로켓"], u "coupang_agent");
         (map u ["naver"; "네이버"; "smart store"; "스마트스토어";
                 "shopping live"], u "naver_agent");
         (map u ["kakao"; "카카오"; "gift"; "선물하기"], u "kakao_agent");
         (map u ["sync"; "consistency"; "cross"; "all channel"; "전체";
                 "동기화"; "일치"], u "cross_channel_syncer") ];
     sup_default := u "cross_channel_syncer";
     sup_agents :=
       map u ["oliveyoung_agent"; "coupang_agent"; "naver_agent";
              "kakao_agent"; "cross_channel_syncer"] |}.

Definition AnalyticsSupervisor : Supervisor :=
  {| sup_name := u "analytics_supervisor";
     sup_division := ANALYTICS;
     sup_rules :=
       [ (map u ["review"; "sentiment"; "feedback"; "리뷰"; "평가";
                 "고객반응"], u "review_sentiment_analyst");
         (map u ["promotion result"; "performance"; "how did"; "성과";
                 "결과"], u "promotion_reviewer");
         (map u ["bundle"; "cross-sell"; "upsell"; "세트"; "번들"],
           u "bundle_analyzer");
         (map u ["margin"; "profit"; "discount"; "마진"; "수익"; "할인"],
           u "margin_calculator");
         (map u ["stock"; "inventory"; "stockout"; "재고"; "품절"],
           u "stockout_predictor");
         (map u ["influencer"; "kol"; "creator"; "인플루언서";
                 "크리에이터"], u "influencer_roi_analyst");
         (map u ["attribution"; "channel contribution"; "기여도";
                 "어트리뷰션"], u "attribution_analyst") ];
     sup_default := u "promotion_reviewer";
     sup_agents :=
       map u ["review_sentiment_analyst"; "promotion_reviewer";
              "bundle_analyzer"; "margin_calculator"; "stockout_predictor";
              "influencer_roi_analyst"; "attribution_analyst"] |}.

Definition OperationsSupervisor : Supervisor :=
  {| sup_name := u "operations_supervisor";
     sup_division := OPERATIONS;
     sup_rules :=
       [ (map u ["inventory"; "stock"; "재고"; "품절"; "물량"],
           u "inventory_checker");
         (map u ["price"; "map"; "violation"; "reseller"; "가격"; "위반"],
           u "price_monitor");
         (map u ["checklist"; "compliance"; "launch"; "체크리스트"; "검증";
                 "런칭"], u "checklist_manager") ];
     sup_default := u "inventory_checker";
     sup_agents :=
       map u ["inventory_checker"; "price_monitor"; "checklist_manager"] |}.

Definition all_supervisors : list Supervisor :=
  [StrategicPlanningSupervisor; MarketIntelligenceSupervisor;
   ChannelManagementSupervisor; AnalyticsSupervisor; OperationsSupervisor].

(** The supervisor a division's factory registers *)
Definition supervisor_of (d : Division) : Supervisor :=
  match d with
  | STRATEGIC_PLANNING => StrategicPlanningSupervisor
  | MARKET_INTELLIGENCE => MarketIntelligenceSupervisor
  | CHANNEL_MANAGEMENT => ChannelManagementSupervisor
  | ANALYTICS => AnalyticsSupervisor
  | OPERATIONS => OperationsSupervisor
  end.

Section Supervisors.
Context `{RT : PyRuntime}.

(** [any(kw in query for kw in keywords)] *)
Definition any_keyword (keywords : list pystr) (query : pystr) : bool :=
  existsb (fun kw => is_infix kw query) keywords.

(** [route_to_agent]: the name of the supervisor itself without a message,
    otherwise the agent of the first rule one of whose keywords is in the
    lower-cased text of the last message, otherwise the default agent. *)
Definition route_to_agent (sup : Supervisor) (state : State) : pystr :=
  match messages state with
  | [] => sup_name sup
  | m0 :: ms =>
      let query := str_lower (msg_content (last ms m0)) in
      match find (fun rule => any_keyword (fst rule) query) (sup_rules sup) with
      | Some rule => snd rule
      | None => sup_default sup
      end
  end.

(** [BaseDivisionSupervisor.get_agent(route_to_agent(state))] is not
    [None] *)
Definition delegates (sup : Supervisor) (state : State) : bool :=
  py_in (route_to_agent sup state) (sup_agents sup).

End Supervisors.

(** X1. [get_agent_for_task] names an agent exactly for the pairs of
    [TASK_TO_DIVISION]: it answers [supervisor] when, and only when, the
    table does not map the task type to the division. *)
Theorem get_agent_for_task_follows_table (d : Division) (t : TaskType) :
  get_agent_for_task d t <> u "supervisor"
  <-> dict_get TASK_TO_DIVISION t = Some d.
Proof.
  destruct d, t; vm_compute; split; intros H;
    try reflexivity; try discriminate H; try (exfalso; apply H; reflexivity);
    try (intros E; discriminate E).
Qed.

(** X2. Whatever the query, when the category [classify_task] gives it is in
    [TASK_TO_DIVISION], the agent [get_agent_for_task] names for that
    division is one of the agents the division's factory hands to its
    supervisor. *)
Theorem classified_agent_is_registered `{RT : PyRuntime} (query : pystr) :
  let t := classify_task query in
  (dict_get TASK_TO_DIVISION t = None /\ t = GENERAL_QUERY) \/
  (exists d, dict_get TASK_TO_DIVISION t = Some d /\
             In (get_agent_for_task d t) (sup_agents (supervisor_of d)) /\
             sup_division (supervisor_of d) = d).
Proof.
  intros t. destruct (classify_task_range query) as [E | Hin].
  - left. fold t in E. rewrite E. split; reflexivity.
  - right. fold t in Hin.
    assert (Hall : forallb
              (fun t' =>
                 match dict_get TASK_TO_DIVISION t' with
                 | Some d => py_in (get_agent_for_task d t')
                               (sup_agents (supervisor_of d))
                 | None => false
                 end) (dict_keys TASK_KEYWORDS) = true)
      by (vm_compute; reflexivity).
    rewrite forallb_forall in Hall. specialize (Hall t Hin).
    destruct (dict_get TASK_TO_DIVISION t) as [d|]; [|discriminate Hall].
    exists d. repeat split.
    + now apply py_in_In.
    + now destruct d.
Qed.

Lemma route_to_agent_range `{RT : PyRuntime} (sup : Supervisor)
    (state : State) (m0 : Message) (ms : list Message) :
  In (route_to_agent sup (with_messages state (m0 :: ms)))
     (sup_default sup :: map snd (sup_rules sup)).
Proof.
  unfold route_to_agent. cbn [messages with_messages].
  destruct (find _ (sup_rules sup)) as [rule|] eqn:Ef.
  - right. apply find_some in Ef as [Hin _]. now apply in_map.
  - now left.
Qed.

(** X3. For each of the five division supervisors: with at least one message
    [route_to_agent] names an agent that the factory registered with the
    supervisor, so [process] never needs its fallback; with the empty text as
    last message it names the default agent; without any message it answers
    with the supervisor's own name, which is no registered agent. The
    supervisor's name is the name of its division's node in the graph. *)
Theorem route_to_agent_names_registered `{RT : PyRuntime} :
  Forall
    (fun sup =>
       (forall state m0 ms,
          In (route_to_agent sup (with_messages state (m0 :: ms)))
             (sup_agents sup)) /\
       (forall state id role,
          route_to_agent sup
            (with_messages state
               [{| msg_id := id; msg_role := role; msg_content := [] |}])
          = sup_default sup) /\
       (forall state,
          route_to_agent sup (with_messages state []) = sup_name sup) /\
       ~ In (sup_name sup) (sup_agents sup) /\
       sup_name sup = node_name (N_supervisor (sup_division sup)))
    all_supervisors.
Proof.
  assert (Hreg : forallb
            (fun sup => forallb (fun a => py_in a (sup_agents sup))
                          (sup_default sup :: map snd (sup_rules sup)))
            all_supervisors = true) by (vm_compute; reflexivity).
  assert (Hkw : forallb
            (fun sup => forallb (fun rule => negb (any_keyword (fst rule) []))
                          (sup_rules sup))
            all_supervisors = true) by (vm_compute; reflexivity).
  assert (Hown : forallb
            (fun sup => negb (py_in (sup_name sup) (sup_agents sup))
                        && str_eqb (sup_name sup)
                             (node_name (N_supervisor (sup_division sup))))
            all_supervisors = true) by (vm_compute; reflexivity).
  rewrite forallb_forall in Hreg, Hkw, Hown.
  apply Forall_forall. intros sup Hsup.
  specialize (Hreg sup Hsup). specialize (Hkw sup Hsup).
  specialize (Hown sup Hsup). rewrite forallb_forall in Hreg, Hkw.
  apply andb_true_iff in Hown as [Hnot Hname].
  split; [|split; [|split; [|split]]].
  - intros state m0 ms. apply py_in_In. apply Hreg. apply route_to_agent_range.
  - intros state id role. unfold route_to_agent.
    cbn [messages with_messages last msg_content].
    rewrite (str_lower_caseless []) by reflexivity.
    destruct (find _ (sup_rules sup)) as [rule|] eqn:Ef; [|reflexivity].
    apply find_some in Ef as [Hin Hany]. specialize (Hkw rule Hin).
    rewrite Hany in Hkw. discriminate Hkw.
  - reflexivity.
  - apply negb_true_iff in Hnot. now apply py_in_false.
  - now apply str_eqb_eq.
Qed.

(** ** state.py: the reducer of [division_results] *)

(** [merged = existing.copy(); merged.update(new_results)]: every item of
    [new_results], in its order, is stored into the copy. *)
Definition merge_division_results (existing new_results : dict pystr Result)
    : dict pystr Result :=
  fold_left (fun merged item => dict_set merged (fst item) (snd item))
    new_results existing.

Definition add_division_results (left right : dict pystr Result)
    : dict pystr Result :=
  merge_division_results left right.

Lemma dict_get_set_other {V : Type} (d : dict pystr V) (k q : pystr) (v : V) :
  k <> q -> dict_get (dict_set d k v) q = dict_get d q.
Proof.
  intros Hne. induction d as [|[k' v'] d IH]; simpl.
  - destruct (str_eqb k q) eqn:E; [|reflexivity].
    apply str_eqb_eq in E. contradiction.
  - destruct (str_eqb k' k) eqn:Ek; simpl.
    + apply str_eqb_eq in Ek. subst k'.
      destruct (str_eqb k q) eqn:E; [|reflexivity].
      apply str_eqb_eq in E. contradiction.
    + now rewrite IH.
Qed.

(** X4. Reading a merged results dict: a key of [new_results] reads as
    [new_results] has it, every other key as [existing] has it. *)
Theorem merge_division_results_get (existing new_results : dict pystr Result)
    (k : pystr) :
  dict_wf new_results ->
  dict_get (merge_division_results existing new_results) k =
  match dict_get new_results k with
  | Some v => Some v
  | None => dict_get existing k
  end.
Proof.
  unfold merge_division_results, dict_wf. revert existing.
  induction new_results as [|[k0 v0] rest IH]; intros existing Hwf.
  - reflexivity.
  - inversion Hwf as [|? ? Hni Hwf']; subst. cbn [fold_left fst snd].
    rewrite IH by assumption. cbn [dict_get].
    change (eqb k0 k) with (str_eqb k0 k).
    destruct (str_eqb k0 k) eqn:E.
    + apply str_eqb_eq in E. subst k0.
      assert (Hnone : dict_get rest k = None) by now apply dict_get_None.
      rewrite Hnone. apply dict_get_set_same.
    + destruct (dict_get rest k); [reflexivity |].
      apply dict_get_set_other. intros Heq. subst k0.
      assert (Et : str_eqb k k = true) by now apply str_eqb_eq.
      congruence.
Qed.

Lemma merge_division_results_get_witness :
  let existing := [(u "analytics", RObj (VStr (u "old")))] in
  let new_results := [(u "analytics", RObj (VStr (u "new")))] in
  dict_wf new_results /\
  dict_get (merge_division_results existing new_results) (u "analytics")
  = Some (RObj (VStr (u "new"))).
Proof.
  split.
  - apply nodupb_NoDup. reflexivity.
  - apply (@merge_division_results_get
             [(u "analytics", RObj (VStr (u "old")))]
             [(u "analytics", RObj (VStr (u "new")))] (u "analytics")).
    apply nodupb_NoDup. reflexivity.
Defined.

(** X5. The order of a merged results dict: the keys of [existing], in
    their order, then the keys of [new_results] that [existing] lacks, in
    theirs; and no key twice when [existing] has none twice. *)
Theorem merge_division_results_keys (existing new_results : dict pystr Result) :
  dict_wf new_results ->
  dict_keys (merge_division_results existing new_results) =
    dict_keys existing
      ++ filter (fun k => negb (py_in k (dict_keys existing)))
           (dict_keys new_results)
  /\ (dict_wf existing ->
      dict_wf (merge_division_results existing new_results)).
Proof.
  unfold merge_division_results. intros Hwf. split.
  - unfold dict_wf in Hwf. revert existing.
    induction new_results as [|[k0 v0] rest IH]; intros existing.
    + simpl. now rewrite app_nil_r.
    + inversion Hwf as [|? ? Hni Hwf']; subst. cbn [fold_left fst snd].
      rewrite IH by assumption. rewrite dict_set_keys.
      cbn [dict_keys map fst filter]. fold (dict_keys rest).
      destruct (py_in k0 (dict_keys existing)) eqn:Ein; cbn [negb].
      * reflexivity.
      * rewrite <- app_assoc. cbn [app]. do 2 f_equal.
        apply filter_ext_in. intros x Hx. f_equal.
        unfold py_in. rewrite existsb_app. cbn [existsb].
        rewrite orb_false_r.
        destruct (eqb k0 x) eqn:Ex; [|now rewrite orb_false_r].
        apply eqb_eq in Ex. subst x. contradiction.
  - intros Hwe. clear Hwf. revert existing Hwe.
    induction new_results as [|[k0 v0] rest IH]; intros existing Hwe.
    + exact Hwe.
    + cbn [fold_left fst snd]. apply IH. now apply dict_set_wf.
Qed.

Lemma merge_division_results_keys_witness :
  let existing := [(u "analytics", RObj (VStr (u "a")))] in
  let new_results :=
    [(u "operations", RObj (VStr (u "o")));
     (u "analytics", RObj (VStr (u "b")))] in
  dict_wf new_results /\
  dict_keys (merge_division_results existing new_results)
  = [u "analytics"; u "operations"].
Proof.
  split.
  - apply nodupb_NoDup. reflexivity.
  - assert (Hwf : dict_wf [(u "operations", RObj (VStr (u "o")));
                           (u "analytics", RObj (VStr (u "b")))])
      by (apply nodupb_NoDup; reflexivity).
    rewrite (proj1 (@merge_division_results_keys
                      [(u "analytics", RObj (VStr (u "a")))]
                      [(u "operations", RObj (VStr (u "o")));
                       (u "analytics", RObj (VStr (u "b")))] Hwf)).
    reflexivity.
Defined.

(** ** routing.py: what [route_to_next] answers *)

Lemma filter_negb_nil {A : Type} (f : A -> bool) (l : list A) :
  filter (fun x => negb (f x)) l = [] <-> forallb f l = true.
Proof.
  induction l as [|a l IH]; simpl.
  - tauto.
  - destruct (f a); simpl.
    + exact IH.
    + split; discriminate.
Qed.

(** X6. [route_to_next] in terms of the pending divisions (those of
    [next_divisions] not in [completed_divisions]): with the error set it
    names the error handler; otherwise the aggregator when nothing is
    pending, the supervisor of the only pending division, or the supervisors
    of all pending divisions in routing order, at least two of them. With at
    most one division pending and no error it agrees with
    [route_from_division]. *)
Theorem route_to_next_by_pending (state : State) :
  route_to_next state =
    (if error_set (error state) then RouteOne (u "error_handler")
     else match pending_of state with
          | [] => RouteOne (u "response_aggregator")
          | [d] => RouteOne (supervisor_name d)
          | pending => RouteMany (map supervisor_name pending)
          end) /\
  (error_set (error state) = false ->
   List.length (pending_of state) <= 1 ->
   route_to_next state = RouteOne (route_from_division state)) /\
  (forall names, route_to_next state = RouteMany names ->
     names = map supervisor_name (pending_of state) /\
     2 <= List.length names).
Proof.
  assert (Heq : route_to_next state =
    (if error_set (error state) then RouteOne (u "error_handler")
     else match pending_of state with
          | [] => RouteOne (u "response_aggregator")
          | [d] => RouteOne (supervisor_name d)
          | pending => RouteMany (map supervisor_name pending)
          end)).
  { unfold route_to_next. destruct (error_set (error state)); [reflexivity |].
    destruct (forallb (fun d => py_in d (completed_divisions state))
                (next_divisions state)) eqn:Eall.
    - rewrite orb_true_r.
      assert (Hp : pending_of state = [])
        by (unfold pending_of; now apply filter_negb_nil).
      now rewrite Hp.
    - rewrite orb_false_r.
      destruct (next_divisions state) as [|n0 ns] eqn:En.
      + discriminate Eall.
      + destruct (pending_of state) as [|d ds] eqn:Ep.
        * unfold pending_of in Ep. rewrite En in Ep.
          apply filter_negb_nil in Ep. congruence.
        * reflexivity. }
  split; [exact Heq | split].
  - intros Herr Hlen. rewrite Heq, Herr. unfold route_from_division.
    destruct (pending_of state) as [|d [|d' ds]]; try reflexivity.
    simpl in Hlen. lia.
  - intros names Hn. rewrite Heq in Hn.
    destruct (error_set (error state)); [discriminate Hn |].
    destruct (pending_of state) as [|d [|d' ds]]; try discriminate Hn.
    injection Hn as <-. split; [reflexivity | simpl; lia].
Qed.

(** ** agents/chief_coordinator.py: [ChiefCoordinator] *)

(** The dict [analyze_request] returns *)
Record Analysis := {
  a_task_type : TaskType;
  a_divisions : list Division;
  a_model_tier : pystr;
  a_use_mini_model : bool;
  a_cache_key : pystr;
  a_is_multi_division : bool
}.

(** What [ChiefCoordinator.process] returns: the error, or the routing *)
Inductive Processed :=
| ProcessedError (err : ErrorField) (agent_name : pystr)
| ProcessedRouted (agent_name : pystr) (task : pystr)
    (divs : list pystr).

Section ChiefCoordinator.
Context `{RT : PyRuntime}.

Definition analyze_request (query : pystr) (state : State) : Analysis :=
  let task := classify_task query in
  let divs := determine_divisions query task in
  let model_tier := determine_model_tier task query in
  let brand := match brand_id state with Some b => b | None => u "default" end in
  {| a_task_type := task;
     a_divisions := divs;
     a_model_tier := model_tier;
     a_use_mini_model := str_eqb model_tier tier2_cheap;
     a_cache_key := brand ++ u ":" ++ task_value task ++ u ":" ++ hash_text query;
     a_is_multi_division := 1 <? List.length divs |}.

Definition route_request (state : State) : State :=
  match messages state with
  | [] => with_error state (ErrText (u "No messages to process"))
  | m0 :: ms =>
      let query := msg_content (last ms m0) in
      let analysis := analyze_request query state in
      {| messages := messages state;
         current_division := current_division state;
         current_agent := Some (u "chief_coordinator");
         user_id := user_id state;
         brand_id := brand_id state;
         active_channels := active_channels state;
         task_type := task_value (a_task_type analysis);
         division_results := division_results state;
         next_divisions := map division_value (a_divisions analysis);
         completed_divisions := completed_divisions state;
         use_mini_model := a_use_mini_model analysis;
         cache_key := Some (a_cache_key analysis);
         error := error state;
         retry_count := retry_count state |}
  end.

Definition coordinator_process (state : State) : Processed :=
  let routed_state := route_request state in
  if error_set (error routed_state)
  then ProcessedError (error routed_state) (u "chief_coordinator")
  else ProcessedRouted (u "chief_coordinator") (task_type routed_state)
         (next_divisions routed_state).

End ChiefCoordinator.

(** [{**state, "current_division": v}] *)
Definition with_current_division (st : State) (v : option pystr) : State :=
  {| messages := messages st;
     current_division := v;
     current_agent := current_agent st;
     user_id := user_id st;
     brand_id := brand_id st;
     active_channels := active_channels st;
     task_type := task_type st;
     division_results := division_results st;
     next_divisions := next_divisions st;
     completed_divisions := completed_divisions st;
     use_mini_model := use_mini_model st;
     cache_key := cache_key st;
     error := error st;
     retry_count := retry_count st |}.

Lemma MULTI_DIVISION_PATTERNS_sizes :
  forallb (fun cfg => (1 <? List.length (divisions cfg))
                      && (List.length (divisions cfg) <=? 4))
    MULTI_DIVISION_PATTERNS = true.
Proof. reflexivity. Qed.

(** X7. [analyze_request] reports a multi-division request exactly when one
    of the multi-division patterns is found in the lower-cased query: a
    pattern gives two or four divisions, the category table at most one. No
    request is routed to more than four divisions. *)
Theorem is_multi_division_iff_pattern `{RT : PyRuntime}
    (query : pystr) (state : State) :
  (a_is_multi_division (analyze_request query state) = true <->
   exists cfg, In cfg MULTI_DIVISION_PATTERNS /\
               re_search (pattern cfg) (str_lower query) = true) /\
  List.length (a_divisions (analyze_request query state)) <= 4.
Proof.
  unfold analyze_request. cbn [a_is_multi_division a_divisions].
  unfold determine_divisions.
  pose proof MULTI_DIVISION_PATTERNS_sizes as Hs. rewrite forallb_forall in Hs.
  destruct (find (fun cfg => re_search (pattern cfg) (str_lower query))
              MULTI_DIVISION_PATTERNS) as [cfg|] eqn:Ef.
  - apply find_some in Ef as [Hin Hm].
    specialize (Hs cfg Hin). apply andb_true_iff in Hs as [H1 H4].
    split.
    + split; [intros _; now exists cfg | intros _; exact H1].
    + now apply Nat.leb_le.
  - pose proof (find_none _ _ Ef) as Hnone. split.
    + split.
      * intros Hlen.
        destruct (dict_get TASK_TO_DIVISION (classify_task query));
          discriminate Hlen.
      * intros [cfg [Hin Hm]]. rewrite (Hnone cfg Hin) in Hm. discriminate Hm.
    + destruct (dict_get TASK_TO_DIVISION (classify_task query)); simpl; lia.
Qed.

(** X8. The coordinator node of the graph and [ChiefCoordinator.route_request]
    compute the same state, except that the node also resets
    [current_division]; without a message both only store the error. *)
Theorem route_request_matches_node `{RT : PyRuntime} (state : State) :
  chief_coordinator state =
  match messages state with
  | [] => route_request state
  | _ :: _ => with_current_division (route_request state) None
  end.
Proof.
  unfold chief_coordinator, route_request, analyze_request,
    with_current_division.
  destruct (messages state) as [|m0 ms] eqn:Em; [reflexivity |].
  cbn [a_task_type a_divisions a_use_mini_model a_cache_key
       messages current_division current_agent user_id brand_id
       active_channels task_type division_results next_divisions
       completed_divisions use_mini_model cache_key error retry_count].
  reflexivity.
Qed.

Lemma Forall2_ichar_refl `{RT : PyRuntime} (l : pystr) :
  (forall c, re_ichar c c = true) ->
  Forall2 (fun p c => re_ichar p c = true) l l.
Proof. intros Hr. induction l; constructor; auto. Qed.

(** X9. The first pattern overrides the category: when the lower-cased
    query holds [plan] and, later on the same line, [promotion], the request
    goes to the four divisions of the promotion-planning workflow whatever
    category it was given. (The premise on [re_ichar] says that a character
    matches itself.) *)
Theorem plan_promotion_overrides_category `{RT : PyRuntime}
    (query pre mid post : pystr) (task : TaskType) :
  (forall c, re_ichar c c = true) ->
  str_lower query = pre ++ u "plan" ++ mid ++ u "promotion" ++ post ->
  ~ In newline mid ->
  determine_divisions query task
  = [STRATEGIC_PLANNING; MARKET_INTELLIGENCE; CHANNEL_MANAGEMENT; ANALYTICS].
Proof.
  intros Hrefl Hq Hmid.
  assert (Hs : re_search
                 (RAlt (then_later "plan" "promotion")
                    (RAlt (then_later "promotion" "plan")
                       (RAlt (then_later "캠페인" "계획")
                          (then_later "계획" "캠페인"))))
                 (str_lower query) = true).
  { apply re_search_denotes.
    exists pre, (u "plan" ++ mid ++ u "promotion"), post. split.
    - rewrite Hq. now rewrite <- !app_assoc.
    - apply D_alt_left. unfold then_later. apply D_cat.
      + apply D_lit. now apply Forall2_ichar_refl.
      + apply D_cat.
        * now apply D_dotstar.
        * apply D_lit. now apply Forall2_ichar_refl. }
  unfold determine_divisions, MULTI_DIVISION_PATTERNS.
  cbn [find pattern]. rewrite Hs. reflexivity.
Qed.

Lemma plan_promotion_overrides_category_witness :
  (forall c, @re_ichar ascii_runtime c c = true) /\
  @determine_divisions ascii_runtime (u "Plan Q2 sunscreen promotions")
    BUDGET_ALLOCATION
  = [STRATEGIC_PLANNING; MARKET_INTELLIGENCE; CHANNEL_MANAGEMENT; ANALYTICS].
Proof.
  assert (Hrefl : forall c, @re_ichar ascii_runtime c c = true)
    by (intros c; apply N.eqb_refl).
  split; [exact Hrefl |].
  apply (@plan_promotion_overrides_category ascii_runtime
           (u "Plan Q2 sunscreen promotions") [] (u " q2 sunscreen ") (u "s")
           BUDGET_ALLOCATION Hrefl).
  - vm_compute. reflexivity.
  - vm_compute. intuition discriminate.
Defined.

(** ** api/routes/chat.py: [send_message] *)

Record ChatRequest := {
  req_message : pystr;
  req_user_id : pystr;
  req_brand_id : pystr;
  req_active_channels : list pystr;
  req_conversation_id : option pystr
}.

(** [ChatResponse], without [conversation_id] and [processing_time_ms],
    which are read off the clock *)
Record ChatResponse := {
  resp_message : pystr;
  resp_divisions_used : list pystr
}.

(** The number of steps after which [graph.ainvoke] gives up (the library's
    default [recursion_limit]) *)
Definition recursion_limit : nat := 25.

Section Chat.
Context `{RT : PyRuntime}.

(** [send_message]: [None] stands for the [HTTPException] raised when the
    request could not be processed. *)
Definition send_message (request : ChatRequest) : option ChatResponse :=
  let input :=
    with_messages
      (create_initial_state (req_user_id request) (req_brand_id request)
         (Some (req_active_channels request)))
      [HumanMessage (req_message request)] in
  match invoke recursion_limit input with
  | (trace, Done) =>
      let result := last (map snd trace) (graph_input input) in
      let response_content :=
        match messages result with
        | [] => []
        | m0 :: ms => msg_content (last ms m0)
        end in
      Some {| resp_message :=
                match response_content with
                | [] => u "Request processed successfully."
                | _ => response_content
                end;
              resp_divisions_used := completed_divisions result |}
  | _ => None
  end.

End Chat.

Lemma assign_ids_below (ms : list Message) :
  forall next : N,
    (Reducer.max_id ms < next)%N ->
    (next <= snd (Reducer.assign_ids next ms))%N /\
    forall x i,
      In x (fst (Reducer.assign_ids next ms)) -> msg_id x = Some i ->
      (i < snd (Reducer.assign_ids next ms))%N.
Proof.
  induction ms as [|m ms IH]; intros next Hmax; simpl.
  - split; [lia | intros x i []].
  - simpl in Hmax. destruct (msg_id m) as [j|] eqn:Ej.
    + assert (Hrest : (Reducer.max_id ms < next)%N) by lia.
      destruct (IH next Hrest) as [Hle Hall].
      destruct (Reducer.assign_ids next ms) as [rest' n'] eqn:Ea.
      simpl in *. split; [exact Hle |].
      intros x i [<- | Hx] Hi.
      * rewrite Ej in Hi. injection Hi as <-. lia.
      * now apply (Hall x).
    + assert (Hrest : (Reducer.max_id ms < next + 1)%N) by lia.
      destruct (IH (next + 1)%N Hrest) as [Hle Hall].
      destruct (Reducer.assign_ids (next + 1) ms) as [rest' n'] eqn:Ea.
      simpl in *. split; [lia |].
      intros x i [<- | Hx] Hi.
      * simpl in Hi. injection Hi as <-. lia.
      * now apply (Hall x).
Qed.

Lemma assign_ids_contents (ms : list Message) :
  forall next : N,
    map (fun m => (msg_role m, msg_content m))
      (fst (Reducer.assign_ids next ms))
    = map (fun m => (msg_role m, msg_content m)) ms.
Proof.
  induction ms as [|m ms IH]; intros next; simpl.
  - reflexivity.
  - destruct (msg_id m).
    + specialize (IH next).
      destruct (Reducer.assign_ids next ms). simpl in *. now rewrite IH.
    + specialize (IH (next + 1)%N).
      destruct (Reducer.assign_ids (next + 1) ms). simpl in *. now rewrite IH.
Qed.

(** Whatever the channel holds, a new message goes last, the messages
    before it as they were. *)
Lemma add_messages_appends (left : list Message) (role : Role)
    (content : pystr) :
  exists left' i,
    Reducer.add_messages left
      [{| msg_id := None; msg_role := role; msg_content := content |}]
    = left' ++ [{| msg_id := Some i; msg_role := role;
                   msg_content := content |}] /\
    map (fun m => (msg_role m, msg_content m)) left'
    = map (fun m => (msg_role m, msg_content m)) left.
Proof.
  unfold Reducer.add_messages.
  rewrite ReducerFacts.max_id_new by reflexivity.
  assert (Hmax : (Reducer.max_id left < Reducer.max_id left + 1)%N) by lia.
  destruct (@assign_ids_below left _ Hmax) as [Hle Hall].
  pose proof (assign_ids_contents left (Reducer.max_id left + 1)) as Hc.
  destruct (Reducer.assign_ids (Reducer.max_id left + 1) left) as [left' n'].
  simpl in Hle, Hall, Hc.
  exists left', n'. split; [|exact Hc].
  cbn [Reducer.assign_ids msg_id msg_role msg_content fold_left].
  unfold Reducer.merge_one.
  rewrite ReducerFacts.replace_last_unknown; [reflexivity |].
  intros x Hx. destruct (Reducer.same_id x _) eqn:Es; [|reflexivity].
  apply ReducerFacts.same_id_eq in Es as [E _]. cbn [msg_id] in E.
  pose proof (Hall x n' Hx E). lia.
Qed.

Lemma aggregator_last_message `{RT : PyRuntime} (state : State) :
  match messages (exec N_response_aggregator state) with
  | [] => []
  | m0 :: ms => msg_content (last ms m0)
  end = aggregated_response state.
Proof.
  unfold exec, node_fn, response_aggregator.
  cbn [messages with_messages with_current_agent]. unfold AIMessage.
  destruct (add_messages_appends (messages state) AI (aggregated_response state))
    as [left' [i [-> _]]].
  destruct left' as [|m0 ms]; [reflexivity |].
  cbn [app]. change (last (ms ++ [?x]) m0) with (last (ms ++ [x]) m0).
  now rewrite last_last.
Qed.

Lemma determine_divisions_length `{RT : PyRuntime} (query : pystr)
    (task : TaskType) :
  List.length (determine_divisions query task) <= 4.
Proof.
  unfold determine_divisions.
  pose proof MULTI_DIVISION_PATTERNS_sizes as Hs. rewrite forallb_forall in Hs.
  destruct (find _ MULTI_DIVISION_PATTERNS) as [cfg|] eqn:Ef.
  - apply find_some in Ef as [Hin _]. specialize (Hs cfg Hin).
    apply andb_true_iff in Hs as [_ H4]. now apply Nat.leb_le.
  - destruct (dict_get TASK_TO_DIVISION task); simpl; lia.
Qed.

Lemma aggregated_response_nonempty `{RT : PyRuntime} (names : list pystr) :
  join [newline; newline] (map section_of names) = [] -> names = [].
Proof.
  destruct names as [|n [|n' rest]]; [reflexivity | |]; intros E;
    unfold section_of in E; vm_compute in E; discriminate E.
Qed.

Definition no_results_text : pystr :=
  u "I've processed your request but no specific division results were generated.".

(** The answer the aggregator gives for the divisions [routed] when each
    reported through [division_supervisor] *)
Definition routed_answer `{RT : PyRuntime} (routed : list Division) : pystr :=
  match routed with
  | [] => no_results_text
  | _ => join [newline; newline]
           (map (fun d => section_of (division_value d)) routed)
  end.

(** The state the coordinator sees for a request of [process_request] *)
Lemma request_state (query user brand : pystr) (channels : option (list pystr)) :
  let st0 := graph_input
               (with_messages (create_initial_state user brand channels)
                  [HumanMessage query]) in
  messages st0
    = [{| msg_id := Some 1%N; msg_role := Human; msg_content := query |}] /\
  error st0 = ErrNone /\
  completed_divisions st0 = [] /\
  division_results st0 = [].
Proof. cbv zeta. split; [|split; [|split]]; reflexivity. Qed.

(** A request that enters through [process_request] runs the coordinator,
    the routed divisions in routing order, and the aggregator. *)
Lemma process_request_run `{RT : PyRuntime} (query user brand : pystr)
    (channels : option (list pystr)) :
  let routed := determine_divisions query (classify_task query) in
  exists pre before,
    (forall fuel, List.length routed + 2 <= fuel ->
       process_request fuel query user brand channels
       = (pre ++ [(N_response_aggregator,
                   exec N_response_aggregator before)], Done)) /\
    map fst pre = N_chief_coordinator :: map N_supervisor routed /\
    completed_divisions before = map division_value routed /\
    aggregated_response before = routed_answer routed.
Proof.
  cbv zeta. unfold process_request, invoke.
  destruct (request_state query user brand channels) as [Hm [He [Hc Hr]]].
  remember (graph_input
              (with_messages (create_initial_state user brand channels)
                 [HumanMessage query])) as st0 eqn:Est0.
  clear Est0.
  destruct (determine_divisions query (classify_task query)) as [|d ds] eqn:Er.
  - remember (exec N_chief_coordinator st0) as st1 eqn:Est1.
    assert (Hn1 : next_divisions st1 = []).
    { rewrite Est1, exec_next_divisions, Hm. cbv zeta.
      cbn [last msg_content]. now rewrite Er. }
    assert (He1 : error_set (error st1) = false).
    { rewrite Est1, exec_error, Hm, He. reflexivity. }
    assert (Hc1 : completed_divisions st1 = []).
    { rewrite Est1, exec_completed. exact Hc. }
    assert (Hr1 : division_results st1 = []).
    { rewrite Est1, exec_results. exact Hr. }
    exists [(N_chief_coordinator, st1)], st1.
    split; [|split; [|split]].
    + intros fuel Hf. destruct fuel as [|[|fuel]]; try (simpl in Hf; lia).
      rewrite run_step. rewrite <- Est1.
      unfold next_of at 1, route_from_coordinator.
      rewrite He1, Hn1.
      change (follow coordinator_edges (u "response_aggregator"))
        with (Goto N_response_aggregator).
      cbv beta iota. rewrite run_terminal by reflexivity. reflexivity.
    + reflexivity.
    + exact Hc1.
    + unfold aggregated_response. rewrite Hr1. vm_compute. reflexivity.
  - assert (He0 : error_set (error st0) = false) by now rewrite He.
    pose proof (@sections_follow_routing _ st0
                  {| msg_id := Some 1%N; msg_role := Human;
                     msg_content := query |} [] d ds) as Hsec.
    cbv zeta in Hsec. specialize (Hsec Hm He0 Hc Hr).
    cbn [last msg_content] in Hsec. specialize (Hsec Er).
    destruct Hsec as [pre [before [Hrun [Hpre [_ [Hresp Hcomp]]]]]].
    exists pre, before.
    split; [exact Hrun | split; [exact Hpre | split; [exact Hcomp | exact Hresp]]].
Qed.

(** X10. Every request that enters through [process_request] is answered by
    the aggregator, never by the error handler, also when the query is empty:
    the graph runs the coordinator, then the supervisors of the divisions the
    router chose, in routing order, then the aggregator, at most six nodes in
    all, and leaves exactly the routed divisions in [completed_divisions]. *)
Theorem process_request_reaches_aggregator `{RT : PyRuntime}
    (query user brand : pystr) (channels : option (list pystr)) :
  let routed := determine_divisions query (classify_task query) in
  exists trace final,
    (forall fuel, 6 <= fuel ->
       process_request fuel query user brand channels = (trace, Done)) /\
    map fst trace
    = N_chief_coordinator :: map N_supervisor routed
        ++ [N_response_aggregator] /\
    ~ In N_error_handler (map fst trace) /\
    List.length trace <= 6 /\
    last (map snd trace) final = final /\
    In final (map snd trace) /\
    completed_divisions final = map division_value routed.
Proof.
  intros routed.
  destruct (process_request_run query user brand channels)
    as [pre [before [Hrun [Hpre [Hcomp _]]]]].
  fold routed in Hrun, Hpre, Hcomp.
  pose proof (determine_divisions_length query (classify_task query)) as Hlen.
  fold routed in Hlen.
  exists (pre ++ [(N_response_aggregator, exec N_response_aggregator before)]),
         (exec N_response_aggregator before).
  assert (Hnodes : map fst (pre ++ [(N_response_aggregator,
                                     exec N_response_aggregator before)])
                   = N_chief_coordinator :: map N_supervisor routed
                       ++ [N_response_aggregator]).
  { rewrite map_app, Hpre. reflexivity. }
  split; [|split; [|split; [|split; [|split; [|split]]]]].
  - intros fuel Hf. apply Hrun. lia.
  - exact Hnodes.
  - rewrite Hnodes. intros [E | Hin]; [discriminate E |].
    apply in_app_or in Hin as [Hin | [E | []]]; [|discriminate E].
    apply in_map_iff in Hin as [d [E _]]. discriminate E.
  - rewrite <- (length_map fst), Hnodes. cbn [List.length].
    rewrite length_app, length_map. simpl. lia.
  - rewrite map_app. cbn [map snd]. apply last_last.
  - rewrite map_app. apply in_or_app. right. now left.
  - rewrite exec_completed. exact Hcomp.
Qed.

(** X11. [send_message] never fails: for every request it returns a
    response whose [divisions_used] are the divisions the router chose for
    the message, in routing order, and whose [message] is the aggregator's
    answer for them (the fixed text when none was chosen, which is the case
    of the empty message), never the fallback text of the endpoint. *)
Theorem send_message_answers `{RT : PyRuntime} (request : ChatRequest) :
  let query := req_message request in
  let routed := determine_divisions query (classify_task query) in
  send_message request
  = Some {| resp_message := routed_answer routed;
            resp_divisions_used := map division_value routed |}
  /\ routed_answer routed <> []
  /\ routed_answer (determine_divisions [] (classify_task [])) = no_results_text.
Proof.
  intros query routed.
  assert (Hne : routed_answer routed <> []).
  { unfold routed_answer. destruct routed as [|d ds] eqn:Er.
    - discriminate.
    - intros E. rewrite <- map_map in E.
      apply aggregated_response_nonempty in E. discriminate E. }
  split; [|split; [exact Hne |]].
  - unfold send_message.
    destruct (process_request_run query (req_user_id request)
                (req_brand_id request) (Some (req_active_channels request)))
      as [pre [before [Hrun [_ [Hcomp Hresp]]]]].
    fold routed in Hrun, Hcomp, Hresp.
    pose proof (determine_divisions_length query (classify_task query)) as Hlen.
    fold routed in Hlen.
    unfold process_request in Hrun. fold query.
    rewrite Hrun by (unfold recursion_limit; lia).
    cbv zeta. rewrite map_app. cbn [map snd]. rewrite last_last.
    rewrite aggregator_last_message, exec_completed, Hcomp, Hresp.
    destruct (routed_answer routed) eqn:Ea; [contradiction | reflexivity].
  - assert (Hd : determine_divisions [] (classify_task []) = []).
    { unfold determine_divisions.
      rewrite (str_lower_caseless []) by reflexivity.
      assert (Hc : classify_task [] = GENERAL_QUERY).
      { unfold classify_task. rewrite (str_lower_caseless []) by reflexivity.
        now rewrite task_scores_scored, scored_empty_query. }
      rewrite Hc. reflexivity. }
    now rewrite Hd.
Qed.

(** ** api/websocket.py: [ConnectionManager] *)

(** A [WebSocket] object, known by its identity *)
Definition WebSocket := N.

(** [active_connections] *)
Definition ConnectionManager := dict pystr (list WebSocket).

Definition new_manager : ConnectionManager := [].

(** [del d[k]] *)
Definition dict_del {V : Type} (d : dict pystr V) (k : pystr) : dict pystr V :=
  filter (fun item => negb (str_eqb (fst item) k)) d.

(** [l.remove(x)]: without the first [x]; [None] is the [ValueError] raised
    when [x] is not in [l]. *)
Fixpoint list_remove (x : WebSocket) (l : list WebSocket)
    : option (list WebSocket) :=
  match l with
  | [] => None
  | y :: l' =>
      if (y =? x)%N then Some l'
      else match list_remove x l' with
           | Some r => Some (y :: r)
           | None => None
           end
  end.

(** [connect], after the socket accepted the connection: the socket is
    appended to the client's list, which is created when missing. *)
Definition connect (m : ConnectionManager) (websocket : WebSocket)
    (client_id : pystr) : ConnectionManager :=
  match dict_get m client_id with
  | None => dict_set m client_id [websocket]
  | Some l => dict_set m client_id (l ++ [websocket])
  end.

Inductive Disconnected :=
| Removed (m : ConnectionManager)
| ValueError.

Definition disconnect (m : ConnectionManager) (websocket : WebSocket)
    (client_id : pystr) : Disconnected :=
  match dict_get m client_id with
  | None => Removed m
  | Some l =>
      match list_remove websocket l with
      | None => ValueError
      | Some [] => Removed (dict_del m client_id)
      | Some l' => Removed (dict_set m client_id l')
      end
  end.

(** The [send_text] calls of [send_personal_message], in order; [A] is the
    type of the serialised message. *)
Definition send_personal_message {A : Type} (m : ConnectionManager)
    (message_json : A) (client_id : pystr) : list (WebSocket * A) :=
  match dict_get m client_id with
  | None => []
  | Some l => map (fun connection => (connection, message_json)) l
  end.

(** The [send_text] calls of [broadcast], in order *)
Definition broadcast {A : Type} (m : ConnectionManager) (message_json : A)
    : list (WebSocket * A) :=
  flat_map (fun item => map (fun connection => (connection, message_json))
                          (snd item)) m.

(** Calls of the manager *)
Inductive ManagerCall :=
| CallConnect (websocket : WebSocket) (client_id : pystr)
| CallDisconnect (websocket : WebSocket) (client_id : pystr).

(** The manager after the calls, [None] when one of them raised *)
Fixpoint after_calls (calls : list ManagerCall) (m : ConnectionManager)
    : option ConnectionManager :=
  match calls with
  | [] => Some m
  | CallConnect ws cid :: rest => after_calls rest (connect m ws cid)
  | CallDisconnect ws cid :: rest =>
      match disconnect m ws cid with
      | Removed m' => after_calls rest m'
      | ValueError => None
      end
  end.

(** No client is kept with an empty list of connections. *)
Definition no_empty_client (m : ConnectionManager) : Prop :=
  dict_wf m /\ forall cid l, In (cid, l) m -> l <> [].

Lemma dict_set_In {V : Type} (d : dict pystr V) (k k' : pystr) (v x : V) :
  In (k, x) (dict_set d k' v) -> (k = k' /\ x = v) \/ In (k, x) d.
Proof.
  induction d as [|[k0 v0] d IH]; simpl.
  - intros [E | []]. injection E as <- <-. now left.
  - destruct (str_eqb k0 k') eqn:Ek; simpl.
    + intros [E | Hin].
      * injection E as <- <-. apply str_eqb_eq in Ek. now left.
      * right. now right.
    + intros [E | Hin].
      * right. now left.
      * destruct (IH Hin) as [H1 | H2]; [now left | right; now right].
Qed.

Lemma dict_del_wf {V : Type} (d : dict pystr V) (k : pystr) :
  dict_wf d -> dict_wf (dict_del d k).
Proof.
  unfold dict_wf, dict_del. induction d as [|[k0 v0] d IH]; simpl; intros Hnd.
  - constructor.
  - inversion Hnd as [|? ? Hni Hnd']; subst.
    destruct (str_eqb k0 k); simpl; [now apply IH |].
    constructor; [|now apply IH].
    intros Hin. apply Hni. apply in_map_iff in Hin as [[k1 v1] [E Hin]].
    simpl in E. subst k1. apply filter_In in Hin as [Hin _].
    change k0 with (fst (k0, v1)). now apply in_map.
Qed.

Lemma list_remove_length (x : WebSocket) (l r : list WebSocket) :
  list_remove x l = Some r -> List.length l = S (List.length r).
Proof.
  revert r. induction l as [|y l IH]; simpl; intros r E.
  - discriminate E.
  - destruct (y =? x)%N.
    + now injection E as <-.
    + destruct (list_remove x l) as [r'|]; [|discriminate E].
      injection E as <-. simpl. now rewrite (IH r').
Qed.

Lemma connect_keeps (m : ConnectionManager) (ws : WebSocket) (cid : pystr) :
  no_empty_client m -> no_empty_client (connect m ws cid).
Proof.
  intros [Hwf Hne]. unfold connect.
  destruct (dict_get m cid) as [l|]; split; try (now apply dict_set_wf);
    intros k x Hin; apply dict_set_In in Hin as [[_ ->] | Hin];
    try (now apply (Hne k)).
  - intros E. apply app_eq_nil in E as [_ E]. discriminate E.
  - discriminate.
Qed.

Lemma disconnect_keeps (m m' : ConnectionManager) (ws : WebSocket)
    (cid : pystr) :
  no_empty_client m -> disconnect m ws cid = Removed m' ->
  no_empty_client m'.
Proof.
  intros [Hwf Hne] Hd. unfold disconnect in Hd.
  destruct (dict_get m cid) as [l|].
  - destruct (list_remove ws l) as [[|y r]|]; try discriminate Hd;
      injection Hd as <-.
    + split; [now apply dict_del_wf |].
      intros k x Hin. unfold dict_del in Hin. apply filter_In in Hin as [Hin _].
      now apply (Hne k).
    + split; [now apply dict_set_wf |].
      intros k x Hin. apply dict_set_In in Hin as [[_ ->] | Hin].
      * discriminate.
      * now apply (Hne k).
  - injection Hd as <-. now split.
Qed.

(** X12. Starting from the empty manager, after any calls of [connect] and
    [disconnect] of which none raised, every client id is stored once and
    none with an empty list of connections: [disconnect] deletes the entry
    of a client whose last connection it removed. *)
Theorem manager_keeps_no_empty_client (calls : list ManagerCall)
    (m : ConnectionManager) :
  after_calls calls new_manager = Some m ->
  dict_wf m /\ forall cid l, dict_get m cid = Some l -> l <> [].
Proof.
  intros Hc.
  assert (Hinv : no_empty_client m).
  { assert (Hstart : no_empty_client new_manager)
      by (split; [constructor | intros cid l []]).
    revert Hc Hstart. generalize new_manager as m0.
    induction calls as [|[ws cid | ws cid] rest IH]; intros m0 Hc Hstart.
    - simpl in Hc. now injection Hc as <-.
    - simpl in Hc. apply (IH _ Hc). now apply connect_keeps.
    - simpl in Hc. destruct (disconnect m0 ws cid) as [m1|] eqn:Ed;
        [|discriminate Hc].
      apply (IH _ Hc). now apply (disconnect_keeps ws cid Hstart). }
  destruct Hinv as [Hwf Hne]. split; [exact Hwf |].
  intros cid l Hg. apply (Hne cid).
  clear - Hg. induction m as [|[k v] m IH]; simpl in Hg; [discriminate Hg |].
  change (eqb k cid) with (str_eqb k cid) in Hg.
  destruct (str_eqb k cid) eqn:E.
  - injection Hg as ->. apply str_eqb_eq in E. subst k. now left.
  - right. now apply IH.
Qed.

Lemma manager_keeps_no_empty_client_witness :
  let calls := [CallConnect 1%N (u "a"); CallConnect 2%N (u "b");
                CallDisconnect 1%N (u "a")] in
  after_calls calls new_manager = Some [(u "b", [2%N])] /\
  dict_wf [(u "b", [2%N])].
Proof.
  split.
  - reflexivity.
  - apply (@manager_keeps_no_empty_client
             [CallConnect 1%N (u "a"); CallConnect 2%N (u "b");
              CallDisconnect 1%N (u "a")]
             [(u "b", [2%N])] eq_refl).
Defined.

Lemma list_remove_last (x : WebSocket) (l : list WebSocket) :
  exists r, list_remove x (l ++ [x]) = Some r /\
            (~ In x l -> r = l).
Proof.
  induction l as [|y l IH]; simpl.
  - rewrite N.eqb_refl. now exists [].
  - destruct (y =? x)%N eqn:E.
    + exists (l ++ [x]). split; [reflexivity |].
      intros Hn. exfalso. apply Hn. left. now apply N.eqb_eq.
    + destruct IH as [r [-> Hr]]. exists (y :: r). split; [reflexivity |].
      intros Hn. f_equal. apply Hr. intros Hin. apply Hn. now right.
Qed.

Lemma list_remove_None (x : WebSocket) (l : list WebSocket) :
  list_remove x l = None <-> ~ In x l.
Proof.
  induction l as [|y l IH]; simpl.
  - tauto.
  - destruct (y =? x)%N eqn:E.
    + apply N.eqb_eq in E. split; [discriminate | intros Hn; exfalso; auto].
    + apply N.eqb_neq in E. destruct (list_remove x l).
      * split; [discriminate |]. intros Hn. exfalso.
        assert (Hin : ~ In x l) by tauto. apply IH in Hin. discriminate Hin.
      * split; [|reflexivity]. intros _ [Hy | Hin]; [contradiction |].
        now apply IH.
Qed.

Lemma dict_set_twice {V : Type} (d : dict pystr V) (k : pystr) (a b : V) :
  dict_set (dict_set d k a) k b = dict_set d k b.
Proof.
  induction d as [|[k0 v0] d IH]; simpl.
  - change (eqb k k) with (str_eqb k k).
    assert (E : str_eqb k k = true) by now apply str_eqb_eq.
    now rewrite E.
  - change (eqb k0 k) with (str_eqb k0 k).
    destruct (str_eqb k0 k) eqn:E; simpl;
      change (eqb k0 k) with (str_eqb k0 k); rewrite E.
    + reflexivity.
    + now rewrite IH.
Qed.

Lemma dict_set_same_value {V : Type} (d : dict pystr V) (k : pystr) (v : V) :
  dict_get d k = Some v -> dict_set d k v = d.
Proof.
  induction d as [|[k0 v0] d IH]; simpl; intros Hg.
  - discriminate Hg.
  - change (eqb k0 k) with (str_eqb k0 k) in *.
    destruct (str_eqb k0 k) eqn:E.
    + now injection Hg as ->.
    + now rewrite IH.
Qed.

Lemma dict_del_fresh {V : Type} (d : dict pystr V) (k : pystr) (v : V) :
  dict_get d k = None -> dict_del (d ++ [(k, v)]) k = d.
Proof.
  intros Hg. unfold dict_del. rewrite filter_app. simpl.
  assert (E : str_eqb k k = true) by now apply str_eqb_eq.
  rewrite E. simpl. rewrite app_nil_r. apply filter_all.
  intros [k0 v0] Hin. simpl. apply negb_true_iff.
  destruct (str_eqb k0 k) eqn:E0; [|reflexivity].
  apply str_eqb_eq in E0. subst k0. apply dict_get_None in Hg.
  exfalso. apply Hg. change k with (fst (k, v0)). now apply in_map.
Qed.

(** X13. The [disconnect] that [websocket_endpoint] calls after its
    [connect] never raises, whatever the manager held before. When the
    socket was not already registered for the client (and the manager kept
    no empty list), it gives back the manager as it was before the
    [connect]. *)
Theorem disconnect_after_connect (m : ConnectionManager) (ws : WebSocket)
    (cid : pystr) :
  disconnect (connect m ws cid) ws cid <> ValueError /\
  ((forall l, dict_get m cid = Some l -> l <> [] /\ ~ In ws l) ->
   disconnect (connect m ws cid) ws cid = Removed m).
Proof.
  unfold connect, disconnect.
  destruct (dict_get m cid) as [l|] eqn:Eg.
  - rewrite dict_get_set_same.
    destruct (list_remove_last ws l) as [r [Hr Hrl]]. rewrite Hr. split.
    + destruct r; discriminate.
    + intros Hl. destruct (Hl l eq_refl) as [Hne Hnot].
      rewrite (Hrl Hnot). destruct l as [|y l']; [contradiction |].
      rewrite dict_set_twice. now rewrite dict_set_same_value.
  - rewrite dict_get_set_same. simpl. rewrite N.eqb_refl. split.
    + discriminate.
    + intros _. rewrite dict_set_fresh by now apply dict_get_None.
      now rewrite dict_del_fresh.
Qed.

(** X14. [disconnect] raises exactly when the client is known and the
    socket is not among its connections; for an unknown client it changes
    nothing, and a socket it removes makes the client's list one shorter. *)
Theorem disconnect_raises_iff (m : ConnectionManager) (ws : WebSocket)
    (cid : pystr) :
  (disconnect m ws cid = ValueError <->
   exists l, dict_get m cid = Some l /\ ~ In ws l) /\
  (dict_get m cid = None -> disconnect m ws cid = Removed m) /\
  (forall m' l, disconnect m ws cid = Removed m' ->
     dict_get m cid = Some l ->
     List.length l
     = S (match dict_get m' cid with
          | Some l' => List.length l'
          | None => 0
          end)).
Proof.
  unfold disconnect. destruct (dict_get m cid) as [l|] eqn:Eg.
  - split; [|split].
    + destruct (list_remove ws l) as [r|] eqn:Er.
      * split.
        -- destruct r; discriminate.
        -- intros [l0 [E Hn]]. injection E as <-.
           apply list_remove_None in Hn. congruence.
      * split; [|reflexivity]. intros _. exists l. split; [reflexivity |].
        now apply list_remove_None.
    + discriminate.
    + intros m' l0 Hd E. injection E as <-.
      destruct (list_remove ws l) as [r|] eqn:Er; [|discriminate Hd].
      rewrite (list_remove_length _ _ Er). f_equal.
      destruct r as [|y r]; injection Hd as <-.
      * assert (Hnone : dict_get (dict_del m cid) cid = None).
        { apply dict_get_None. unfold dict_del, dict_keys.
          intros Hin. apply in_map_iff in Hin as [[k v] [Ek Hin]].
          simpl in Ek. subst k. apply filter_In in Hin as [_ Hf].
          simpl in Hf. assert (E : str_eqb cid cid = true) by now apply str_eqb_eq.
          rewrite E in Hf. discriminate Hf. }
        now rewrite Hnone.
      * now rewrite dict_get_set_same.
  - split; [|split].
    + split; [discriminate |]. intros [l [E _]]. discriminate E.
    + reflexivity.
    + intros m' l _ E. discriminate E.
Qed.

(** How many [send_text] calls of [sends] go to the socket [ws] *)
Definition deliveries {A : Type} (sends : list (WebSocket * A))
    (ws : WebSocket) : nat :=
  count_occ N.eq_dec (map fst sends) ws.

(** How many times [ws] is registered in the manager, over all clients *)
Definition registrations (m : ConnectionManager) (ws : WebSocket) : nat :=
  count_occ N.eq_dec (flat_map snd m) ws.

Definition one_if_same (a b : WebSocket) : nat :=
  if (a =? b)%N then 1 else 0.

Lemma broadcast_deliveries {A : Type} (m : ConnectionManager) (msg : A)
    (ws : WebSocket) :
  deliveries (broadcast m msg) ws = registrations m ws.
Proof.
  unfold deliveries, registrations, broadcast. f_equal.
  induction m as [|[k l] m IH]; simpl.
  - reflexivity.
  - rewrite map_app, map_map, IH. simpl. now rewrite map_id.
Qed.

Lemma count_occ_single (a b : WebSocket) :
  count_occ N.eq_dec [a] b = one_if_same b a.
Proof.
  unfold one_if_same. simpl. destruct (N.eq_dec a b) as [E | E].
  - subst. now rewrite N.eqb_refl.
  - destruct (b =? a)%N eqn:Eb; [|reflexivity].
    apply N.eqb_eq in Eb. congruence.
Qed.

Lemma registrations_set (m : ConnectionManager) (k : pystr)
    (v : list WebSocket) (ws : WebSocket) :
  registrations (dict_set m k v) ws
    + count_occ N.eq_dec
        (match dict_get m k with Some l => l | None => [] end) ws
  = registrations m ws + count_occ N.eq_dec v ws.
Proof.
  unfold registrations, ConnectionManager, WebSocket in *.
  induction m as [|[k0 l0] m IH]; simpl.
  - rewrite app_nil_r. lia.
  - change (eqb k0 k) with (str_eqb k0 k).
    destruct (str_eqb k0 k); simpl; rewrite !count_occ_app.
    + set (a := count_occ N.eq_dec v ws).
      set (b := count_occ N.eq_dec (flat_map snd m) ws).
      set (c := count_occ N.eq_dec l0 ws). lia.
    + set (c := count_occ N.eq_dec l0 ws) in *.
      rewrite <- Nat.add_assoc, IH. lia.
Qed.

Lemma registrations_del (m : ConnectionManager) (k : pystr)
    (l : list WebSocket) (ws : WebSocket) :
  dict_wf m -> dict_get m k = Some l ->
  registrations (dict_del m k) ws + count_occ N.eq_dec l ws
  = registrations m ws.
Proof.
  unfold registrations, dict_wf, dict_del, ConnectionManager, WebSocket in *.
  induction m as [|[k0 l0] m IH]; simpl; intros Hnd Hg.
  - discriminate Hg.
  - inversion Hnd as [|? ? Hni Hnd']; subst.
    change (eqb k0 k) with (str_eqb k0 k) in Hg.
    destruct (str_eqb k0 k) eqn:E; simpl.
    + injection Hg as ->. apply str_eqb_eq in E. subst k0.
      rewrite filter_all.
      * rewrite count_occ_app. lia.
      * intros [k1 l1] Hin. simpl. apply negb_true_iff.
        destruct (str_eqb k1 k) eqn:E1; [|reflexivity].
        apply str_eqb_eq in E1. subst k1. exfalso. apply Hni.
        change k with (fst (k, l1)). now apply in_map.
    + rewrite !count_occ_app. specialize (IH Hnd' Hg). lia.
Qed.

Lemma list_remove_count (x ws : WebSocket) (l r : list WebSocket) :
  list_remove x l = Some r ->
  count_occ N.eq_dec l ws = count_occ N.eq_dec r ws + one_if_same ws x.
Proof.
  unfold WebSocket in *.
  revert r. induction l as [|y l IH]; simpl; intros r E.
  - discriminate E.
  - destruct (y =? x)%N eqn:Ey.
    + injection E as <-. apply N.eqb_eq in Ey. subst y.
      pose proof (count_occ_single x ws) as Hs. simpl in Hs.
      destruct (N.eq_dec x ws); lia.
    + destruct (list_remove x l) as [r'|]; [|discriminate E].
      injection E as <-. simpl. specialize (IH r' eq_refl).
      destruct (N.eq_dec y ws); lia.
Qed.

(** X15. A broadcast sends each socket one copy per registration in the
    manager. [connect] adds exactly one copy for its socket and none for any
    other; a [disconnect] that removes a socket of a known client takes
    exactly one copy away from that socket and none from any other. *)
Theorem broadcast_counts_registrations {A : Type} (m : ConnectionManager)
    (ws other : WebSocket) (cid : pystr) (msg : A) :
  deliveries (broadcast m msg) other = registrations m other /\
  deliveries (broadcast (connect m ws cid) msg) other
  = deliveries (broadcast m msg) other + one_if_same other ws /\
  (dict_wf m ->
   forall m' l, dict_get m cid = Some l ->
     disconnect m ws cid = Removed m' ->
     deliveries (broadcast m msg) other
     = deliveries (broadcast m' msg) other + one_if_same other ws).
Proof.
  rewrite !broadcast_deliveries. split; [reflexivity | split].
  - unfold connect. destruct (dict_get m cid) as [l|] eqn:Eg.
    + pose proof (registrations_set m cid (l ++ [ws]) other) as Hs.
      rewrite Eg, count_occ_app, count_occ_single in Hs.
      unfold WebSocket in *. lia.
    + pose proof (registrations_set m cid [ws] other) as Hs.
      rewrite Eg, count_occ_single in Hs. simpl in Hs.
      unfold WebSocket in *. lia.
  - intros Hwf m' l Hg Hd. rewrite broadcast_deliveries.
    unfold disconnect in Hd. rewrite Hg in Hd.
    destruct (list_remove ws l) as [r|] eqn:Er; [|discriminate Hd].
    pose proof (@list_remove_count ws other l r Er) as Hc.
    destruct r as [|y r]; injection Hd as <-.
    + pose proof (@registrations_del m cid l other Hwf Hg) as Hdel.
      simpl in Hc.
      unfold WebSocket in *. lia.
    + pose proof (registrations_set m cid (y :: r) other) as Hs.
      rewrite Hg in Hs. unfold WebSocket in *. lia.
Qed.

(** ** agents/tools/common_tools.py: [truncate_text] *)

(** [s[:stop]]: a negative [stop] counts from the end. *)
Definition py_slice_to (s : pystr) (stop : Z) : pystr :=
  if (stop <? 0)%Z
  then firstn (Z.to_nat (Z.of_nat (List.length s) + stop)) s
  else firstn (Z.to_nat stop) s.

Definition truncate_text (text : pystr) (max_length : Z) : pystr :=
  if (Z.of_nat (List.length text) <=? max_length)%Z then text
  else py_slice_to text (max_length - 3) ++ u "...".

(** X16. With [max_length] at least 3, [truncate_text] returns a text of at
    most [max_length] characters: the text itself when it fits, otherwise
    its first [max_length - 3] characters followed by three dots, exactly
    [max_length] characters. *)
Theorem truncate_text_fits (text : pystr) (max_length : Z) :
  (3 <= max_length)%Z ->
  (Z.of_nat (List.length (truncate_text text max_length)) <= max_length)%Z /\
  ((Z.of_nat (List.length text) <= max_length)%Z ->
   truncate_text text max_length = text) /\
  ((max_length < Z.of_nat (List.length text))%Z ->
   truncate_text text max_length
   = firstn (Z.to_nat (max_length - 3)) text ++ u "..." /\
   Z.of_nat (List.length (truncate_text text max_length)) = max_length).
Proof.
  intros H3. unfold truncate_text, py_slice_to.
  destruct (Z.of_nat (List.length text) <=? max_length)%Z eqn:E.
  - apply Z.leb_le in E. repeat split; try lia; try reflexivity.
  - apply Z.leb_gt in E.
    assert (Hs : (max_length - 3 <? 0)%Z = false) by (apply Z.ltb_ge; lia).
    rewrite Hs.
    assert (Hlen : List.length
                     (firstn (Z.to_nat (max_length - 3)) text ++ u "...")
                   = Z.to_nat (max_length - 3) + 3).
    { rewrite length_app, length_firstn. change (List.length (u "...")) with 3.
      lia. }
    repeat split; try reflexivity; try lia.
Qed.

Lemma truncate_text_fits_witness :
  (3 <= 8)%Z /\
  truncate_text (u "promotion calendar") 8 = u "promo...".
Proof.
  split; [lia |].
  destruct (@truncate_text_fits (u "promotion calendar") 8%Z ltac:(lia))
    as [_ [_ Hcut]].
  destruct (Hcut ltac:(vm_compute; reflexivity)) as [Heq _].
  rewrite Heq. reflexivity.
Defined.

(** X17. With [max_length] below 3 the bound is not kept: a text longer
    than [max_length] comes back longer than [max_length], since the three
    dots are added to what the slice [text[:max_length - 3]], counted from
    the end, leaves. *)
Theorem truncate_text_small_limit (text : pystr) (max_length : Z) :
  (max_length < 3)%Z ->
  (max_length < Z.of_nat (List.length text))%Z ->
  List.length (truncate_text text max_length)
  = Z.to_nat (Z.of_nat (List.length text) + max_length - 3) + 3 /\
  (max_length < Z.of_nat (List.length (truncate_text text max_length)))%Z.
Proof.
  intros H3 Hlong. unfold truncate_text, py_slice_to.
  assert (E : (Z.of_nat (List.length text) <=? max_length)%Z = false)
    by (apply Z.leb_gt; lia).
  assert (Hs : (max_length - 3 <? 0)%Z = true) by (apply Z.ltb_lt; lia).
  rewrite E, Hs. rewrite length_app, length_firstn.
  change (List.length (u "...")) with 3. split; lia.
Qed.

Lemma truncate_text_small_limit_witness :
  (2 < 3)%Z /\ (2 < Z.of_nat (List.length (u "abcdef")))%Z /\
  List.length (truncate_text (u "abcdef") 2) = 8.
Proof.
  split; [lia | split; [vm_compute; reflexivity |]].
  rewrite (proj1 (@truncate_text_small_limit (u "abcdef") 2%Z
                    ltac:(lia) ltac:(vm_compute; reflexivity))).
  reflexivity.
Defined.

(** ** agents/divisions/market_intelligence/ingredient_analyst.py:
    [analyze_ingredient_combinations] *)

(** [a < b] for strings: by code points, a proper prefix first. *)
Fixpoint str_ltb (a b : pystr) : bool :=
  match a, b with
  | _, [] => false
  | [], _ :: _ => true
  | x :: a', y :: b' => (x <? y)%N || ((x =? y)%N && str_ltb a' b')
  end.

(** [tuple(sorted([ing1, ing2]))] *)
Definition sorted_pair (ing1 ing2 : pystr) : pystr * pystr :=
  if str_ltb ing2 ing1 then (ing2, ing1) else (ing1, ing2).

Definition pair_eqb (p q : pystr * pystr) : bool :=
  str_eqb (fst p) (fst q) && str_eqb (snd p) (snd q).

Lemma pair_eqb_eq (p q : pystr * pystr) : pair_eqb p q = true <-> p = q.
Proof.
  destruct p as [a b], q as [c d]. unfold pair_eqb. simpl.
  rewrite andb_true_iff, !str_eqb_eq. split.
  - intros [-> ->]. reflexivity.
  - intros E. injection E. auto.
Qed.

#[export] Instance pair_Eqb : Eqb (pystr * pystr) :=
  {| eqb := pair_eqb; eqb_eq := pair_eqb_eq |}.

Definition incompatible_pairs : dict (pystr * pystr) pystr :=
  [ ((u "retinol", u "vitamin_c"), u "pH conflict, may reduce efficacy");
    ((u "retinol", u "aha"), u "increased irritation risk");
    ((u "retinol", u "bha"), u "increased irritation risk");
    ((u "vitamin_c", u "niacinamide"), u "old myth - actually compatible");
    ((u "aha", u "bha"), u "over-exfoliation risk if combined") ].

Definition synergies : dict (pystr * pystr) pystr :=
  [ ((u "niacinamide", u "hyaluronic_acid"), u "complementary hydration");
    ((u "centella", u "niacinamide"), u "enhanced barrier repair");
    ((u "vitamin_c", u "vitamin_e"), u "enhanced antioxidant protection");
    ((u "retinol", u "peptides"), u "complementary anti-aging") ].

(** The dict the tool returns; an issue or a synergy is the two ingredients
    and the text of the table. *)
Record CombinationAnalysis := {
  ingredients_analyzed : list pystr;
  compatibility_issues : list (pystr * pystr * pystr);
  positive_synergies : list (pystr * pystr * pystr);
  overall_assessment : pystr
}.

(** The pairs the two loops visit: each ingredient with each later one. *)
Fixpoint later_pairs (l : list pystr) : list (pystr * pystr) :=
  match l with
  | [] => []
  | ing1 :: rest => map (fun ing2 => (ing1, ing2)) rest ++ later_pairs rest
  end.

(** The entries appended for the pairs whose sorted form is a key of
    [table] *)
Definition found_in (table : dict (pystr * pystr) pystr)
    (pairs : list (pystr * pystr)) : list (pystr * pystr * pystr) :=
  flat_map
    (fun p => match dict_get table (sorted_pair (fst p) (snd p)) with
              | Some text => [(fst p, snd p, text)]
              | None => []
              end) pairs.

Section Ingredients.
Context `{RT : PyRuntime}.

Definition analyze_ingredient_combinations (ingredients : list pystr)
    : CombinationAnalysis :=
  let ingredients_lower :=
    map (fun i => replace_char 32%N 95%N (str_lower i)) ingredients in
  let issues := found_in incompatible_pairs (later_pairs ingredients_lower) in
  let positive_combinations :=
    found_in synergies (later_pairs ingredients_lower) in
  {| ingredients_analyzed := ingredients;
     compatibility_issues := issues;
     positive_synergies := positive_combinations;
     overall_assessment :=
       match issues with
       | [] => u "compatible"
       | _ => u "has_concerns"
       end |}.

End Ingredients.

Lemma dict_get_entry {K V : Type} `{Eqb K} (d : dict K V) (k : K) (v : V) :
  dict_get d k = Some v -> In (k, v) d.
Proof.
  induction d as [|[k0 v0] d IH]; simpl; intros Hg.
  - discriminate Hg.
  - destruct (eqb k0 k) eqn:E.
    + injection Hg as ->. apply eqb_eq in E. subst k0. now left.
    + right. now apply IH.
Qed.

Lemma sorted_pair_sorted (a b : pystr) :
  str_ltb (snd (sorted_pair a b)) (fst (sorted_pair a b)) = false.
Proof.
  unfold sorted_pair. destruct (str_ltb b a) eqn:E; simpl; [|exact E].
  revert b E. induction a as [|x a IH]; intros [|y b] E; simpl in *;
    try discriminate E; try reflexivity.
  apply orb_true_iff in E as [E | E].
  - apply N.ltb_lt in E.
    assert (E1 : (x <? y)%N = false) by (apply N.ltb_ge; lia).
    assert (E2 : (x =? y)%N = false) by (apply N.eqb_neq; lia).
    now rewrite E1, E2.
  - apply andb_true_iff in E as [Exy E]. apply N.eqb_eq in Exy. subst y.
    rewrite N.ltb_irrefl, N.eqb_refl. simpl. now apply IH.
Qed.

Lemma found_in_key (table : dict (pystr * pystr) pystr)
    (pairs : list (pystr * pystr)) (a b text : pystr) :
  In (a, b, text) (found_in table pairs) ->
  exists key, In (key, text) table /\ str_ltb (snd key) (fst key) = false.
Proof.
  unfold found_in. intros Hin. apply in_flat_map in Hin as [p [_ Hin]].
  destruct (dict_get table (sorted_pair (fst p) (snd p))) as [t|] eqn:Eg;
    [|destruct Hin].
  destruct Hin as [E | []]. injection E as _ _ <-.
  exists (sorted_pair (fst p) (snd p)). split.
  - now apply dict_get_entry.
  - apply sorted_pair_sorted.
Qed.

(** X18. Whatever the ingredients, the only incompatibilities the tool ever
    reports are the pH conflict (retinol with vitamin C) and the
    over-exfoliation risk (AHA with BHA), and the only synergies the barrier
    repair and the antioxidant protection: the other entries of the two
    tables have keys that are not in sorted order, and the sorted pair the
    tool looks up never equals them. *)
Theorem ingredient_reports_sorted_keys_only `{RT : PyRuntime}
    (ingredients : list pystr) :
  let result := analyze_ingredient_combinations ingredients in
  (forall a b issue, In (a, b, issue) (compatibility_issues result) ->
     issue = u "pH conflict, may reduce efficacy" \/
     issue = u "over-exfoliation risk if combined") /\
  (forall a b benefit, In (a, b, benefit) (positive_synergies result) ->
     benefit = u "enhanced barrier repair" \/
     benefit = u "enhanced antioxidant protection").
Proof.
  cbv zeta. unfold analyze_ingredient_combinations.
  cbn [compatibility_issues positive_synergies]. split.
  - intros a b issue Hin.
    apply found_in_key in Hin as [key [Hk Hs]].
    unfold incompatible_pairs in Hk.
    destruct Hk as [E | [E | [E | [E | [E | []]]]]];
      injection E as <- <-; try (vm_compute in Hs; discriminate Hs).
    + now left.
    + now right.
  - intros a b benefit Hin.
    apply found_in_key in Hin as [key [Hk Hs]].
    unfold synergies in Hk.
    destruct Hk as [E | [E | [E | [E | []]]]];
      injection E as <- <-; try (vm_compute in Hs; discriminate Hs).
    + now left.
    + now right.
Qed.

Lemma str_ltb_total (a b : pystr) :
  str_ltb a b = false -> str_ltb b a = false -> a = b.
Proof.
  revert b. induction a as [|x a IH]; intros [|y b] Hab Hba; simpl in *;
    try discriminate; try reflexivity.
  apply orb_false_iff in Hab as [Hxy Hab].
  apply orb_false_iff in Hba as [Hyx Hba].
  apply N.ltb_ge in Hxy, Hyx. assert (E : x = y) by lia. subst y.
  rewrite N.eqb_refl in Hab, Hba. simpl in Hab, Hba.
  f_equal. now apply IH.
Qed.

Lemma sorted_pair_sym (a b : pystr) : sorted_pair a b = sorted_pair b a.
Proof.
  pose proof (sorted_pair_sorted a b) as Hab. unfold sorted_pair in *.
  destruct (str_ltb b a) eqn:E1; simpl in Hab.
  - now rewrite Hab.
  - destruct (str_ltb a b) eqn:E2; [reflexivity |].
    now rewrite (str_ltb_total a b E2 E1).
Qed.

(** X19. For two ingredients the verdict does not depend on the order in
    which they are given: the same issue texts, the same synergy texts and
    the same overall assessment. *)
Theorem ingredient_pair_order_irrelevant `{RT : PyRuntime} (a b : pystr) :
  let r1 := analyze_ingredient_combinations [a; b] in
  let r2 := analyze_ingredient_combinations [b; a] in
  map snd (compatibility_issues r1) = map snd (compatibility_issues r2) /\
  map snd (positive_synergies r1) = map snd (positive_synergies r2) /\
  overall_assessment r1 = overall_assessment r2.
Proof.
  cbv zeta. unfold analyze_ingredient_combinations, found_in.
  cbn [compatibility_issues positive_synergies overall_assessment map
       later_pairs app flat_map fst snd].
  set (a' := replace_char 32%N 95%N (str_lower a)).
  set (b' := replace_char 32%N 95%N (str_lower b)).
  rewrite (sorted_pair_sym b' a').
  destruct (dict_get incompatible_pairs (sorted_pair a' b'));
    destruct (dict_get synergies (sorted_pair a' b'));
    repeat split; reflexivity.
Qed.

Lemma exec_messages_witness :
  ReducerFacts.channel_ok (messages two_results_state) /\
  map (fun m => (msg_role m, msg_content m))
    (messages (@exec ascii_runtime N_response_aggregator two_results_state))
  = map (fun m => (msg_role m, msg_content m)) (messages two_results_state)
      ++ [(AI, @aggregated_response ascii_runtime two_results_state)].
Proof.
  assert (Hok : ReducerFacts.channel_ok (messages two_results_state)).
  { change (messages two_results_state)
      with [{| msg_id := Some 1%N; msg_role := Human;
               msg_content := u "plan the promotion" |}].
    split.
    - repeat constructor. discriminate.
    - repeat constructor. intros []. }
  split; [exact Hok |].
  exact (@exec_messages ascii_runtime N_response_aggregator
           two_results_state Hok).
Defined.
